(** * go.arbiter: command formatting and the single-connection worker

    A shallow embedding of the [arbiter] package: [Command.Bytes],
    [sanitize] and [JSONLabels] (the command model), the
    [Response]/[request] envelopes (response.go) and the [tcp] engine and
    worker with [Dial], [Control], [Close], [sock2ibuf], [checkState],
    [handleIncoming] and the loop of [runner] (tcp.go).

    Go strings are [string]; a [[]byte] is a [list ascii] (the nil slice and
    the empty slice both have length 0 and are both rendered as [[]]).
    The libraries the package calls are modelled as follows:
    - [regexp]: a small backtracking engine over a pattern syntax tree,
      with leftmost-first priority, related to the language of the pattern;
    - [fmt.Sprintf]: a parameter of the development, with an executable
      model of the [%d], [%s], [%v], [%%] fragment for concrete runs;
    - [net.Conn], the clock and the channels: the outcome of each call is an
      input of the function that makes it, and what is written or sent is
      returned as a trace of events. *)

From Stdlib Require Import Bool Ascii String List ZArith Lia DecimalString.
Import ListNotations.

Set Implicit Arguments.

Local Open Scope list_scope.

(** [[]byte] *)
Definition bytes := list ascii.

(** [[]byte(str)] *)
Definition bytes_of_string (s : string) : bytes := list_ascii_of_string s.

(** ** Package regexp *)

Module Regexp.

(** A character class: a list of inclusive ranges, possibly negated. *)
Record class := Class { negated : bool; ranges : list (ascii * ascii) }.

Definition in_range (c : ascii) (r : ascii * ascii) : bool :=
  (nat_of_ascii (fst r) <=? nat_of_ascii c)%nat
  && (nat_of_ascii c <=? nat_of_ascii (snd r))%nat.

Definition accepts (cl : class) (c : ascii) : bool :=
  xorb (negated cl) (existsb (in_range c) (ranges cl)).

(** The syntax tree of a compiled pattern ([*regexp.Regexp]). *)
Inductive Regexp : Type :=
| Eps : Regexp
| Chr : class -> Regexp
| Cat : Regexp -> Regexp -> Regexp
| Alt : Regexp -> Regexp -> Regexp
| Star : Regexp -> Regexp.

(** The language of a pattern: the texts it matches in their entirety. *)
Inductive matches : Regexp -> bytes -> Prop :=
| MEps : matches Eps []
| MChr : forall cl c, accepts cl c = true -> matches (Chr cl) [c]
| MCat : forall r1 r2 s1 s2,
    matches r1 s1 -> matches r2 s2 -> matches (Cat r1 r2) (s1 ++ s2)
| MAltL : forall r1 r2 s, matches r1 s -> matches (Alt r1 r2) s
| MAltR : forall r1 r2 s, matches r2 s -> matches (Alt r1 r2) s
| MStar0 : forall r, matches (Star r) []
| MStarS : forall r s1 s2,
    matches r s1 -> matches (Star r) s2 -> matches (Star r) (s1 ++ s2).

(** The backtracking matcher.  [exec r s k] tries the ways [r] can match a
    prefix of [s] in priority order (left alternative first, greedy
    repetition) and hands the rest of the text to [k]; the first way that
    [k] accepts wins.  A repetition only iterates when the iteration
    consumed input. *)
Section Exec.
Variable A : Type.

Fixpoint star_loop (step : bytes -> (bytes -> option A) -> option A)
         (n : nat) (s : bytes) (k : bytes -> option A) : option A :=
  match n with
  | O => k s
  | S n' =>
      match step s (fun s' =>
                      if (length s' <? length s)%nat
                      then star_loop step n' s' k else None) with
      | Some x => Some x
      | None => k s
      end
  end.

Fixpoint exec (r : Regexp) (s : bytes) (k : bytes -> option A)
  : option A :=
  match r with
  | Eps => k s
  | Chr cl =>
      match s with
      | c :: s' => if accepts cl c then k s' else None
      | [] => None
      end
  | Cat r1 r2 => exec r1 s (fun s' => exec r2 s' k)
  | Alt r1 r2 =>
      match exec r1 s k with
      | Some x => Some x
      | None => exec r2 s k
      end
  | Star r1 => star_loop (exec r1) (length s) s k
  end.
End Exec.

(** [b] contains a match of [r] that starts after [pre]. *)
Definition match_at (r : Regexp) (b pre m : bytes) : Prop :=
  exists post, b = pre ++ m ++ post /\ matches r m.

(** The matcher run against the end of the text: whether [r] matches [s]
    in its entirety. *)
Definition full_match (r : Regexp) (s : bytes) : bool :=
  match exec r s (fun rest => match rest with [] => Some tt | _ => None end)
  with Some _ => true | None => false end.

(** The leftmost-first match of [r] that starts at the beginning of [s]. *)
Definition match_here (r : Regexp) (s : bytes) : option bytes :=
  exec r s (fun rest => Some (firstn (length s - length rest) s)).

(** The leftmost match of [r] in [s]: the first start position that has
    one, the empty suffix included. *)
Fixpoint find (r : Regexp) (s : bytes) : option bytes :=
  match match_here r s with
  | Some m => Some m
  | None =>
      match s with
      | [] => None
      | _ :: s' => find r s'
      end
  end.

(** [re.Match(b)]: whether [b] contains any match of [re]. *)
Definition Match (re : Regexp) (b : bytes) : bool :=
  match find re b with Some _ => true | None => false end.

(** [re.MatchString(s)] *)
Definition MatchString (re : Regexp) (s : string) : bool :=
  Match re (bytes_of_string s).

(** [re.Find(b)]: the text of the leftmost match, nil when there is none. *)
Definition Find (re : Regexp) (b : bytes) : bytes :=
  match find re b with Some m => m | None => [] end.

(** Pattern builders for the syntax the package's commands use. *)
Definition lit (c : ascii) : Regexp := Chr (Class false [(c, c)]).
Definition range (lo hi : ascii) : Regexp := Chr (Class false [(lo, hi)]).
(** [.]: any character but a newline *)
Definition dot : Regexp := Chr (Class true [("010"%char, "010"%char)]).
(** a pattern no text matches, such as [a^] *)
Definition never : Regexp := Chr (Class false []).
(** [r+] and [r{1,}] *)
Definition plus (r : Regexp) : Regexp := Cat r (Star r).
(** a literal text *)
Fixpoint text (s : string) : Regexp :=
  match s with
  | EmptyString => Eps
  | String c EmptyString => lit c
  | String c s' => Cat (lit c) (text s')
  end.

End Regexp.

(** The text contains a match of the pattern: what [Match] decides. *)
Definition matches_anywhere (r : Regexp.Regexp) (b : bytes) : Prop :=
  exists pre m, Regexp.match_at r b pre m.

(** ** Package fmt and package strings *)

(** An argument passed as [interface{}]: the dynamic types the model knows. *)
Inductive value : Type :=
| VInt : Z -> value
| VString : string -> value.

(** [strings.HasPrefix(s, prefix)] *)
Fixpoint HasPrefix (s prefix : string) {struct prefix} : bool :=
  match prefix with
  | EmptyString => true
  | String a prefix' =>
      match s with
      | EmptyString => false
      | String b s' => Ascii.eqb a b && HasPrefix s' prefix'
      end
  end.

(** [strings.Contains(s, substr)]: whether [substr] starts somewhere in [s] *)
Fixpoint Contains (s substr : string) : bool :=
  if HasPrefix s substr then true
  else match s with
       | EmptyString => false
       | String _ s' => Contains s' substr
       end.

Module Fmt.

Local Open Scope string_scope.

(** the name of the dynamic type, as [%T] prints it *)
Definition typeString (a : value) : string :=
  match a with
  | VInt _ => "int"
  | VString _ => "string"
  end.

(** the default format [%v] of an operand *)
Definition fmtDefault (a : value) : string :=
  match a with
  | VInt n => NilZero.string_of_int (Z.to_int n)
  | VString s => s
  end.

(** [badVerb]: the marker left in place of an operand its verb cannot print *)
Definition badVerb (verb : ascii) (a : value) : string :=
  "%!" ++ String verb "(" ++ typeString a ++ "=" ++ fmtDefault a ++ ")".

(** [printArg] for the verbs [d], [s] and [v] *)
Definition printArg (a : value) (verb : ascii) : string :=
  match a with
  | VInt _ =>
      if (Ascii.eqb verb "d" || Ascii.eqb verb "v")%char
      then fmtDefault a else badVerb verb a
  | VString _ =>
      if (Ascii.eqb verb "s" || Ascii.eqb verb "v")%char
      then fmtDefault a else badVerb verb a
  end.

Fixpoint extraArgs (a : list value) : string :=
  match a with
  | [] => ""
  | [x] => typeString x ++ "=" ++ fmtDefault x
  | x :: a' => typeString x ++ "=" ++ fmtDefault x ++ ", " ++ extraArgs a'
  end.

(** the check at the end of [doPrintf]: operands no verb consumed *)
Definition extra (a : list value) : string :=
  match a with
  | [] => ""
  | _ => "%!(EXTRA " ++ extraArgs a ++ ")"
  end.

(** [fmt.Sprintf] on formats whose verbs are [%d], [%s], [%v] and [%%],
    without flags, width, precision or argument indexes, and on operands of
    type int and string.  Outside that fragment the function is defined but
    makes no promise about the library. *)
Fixpoint Sprintf (format : string) (a : list value) : string :=
  match format with
  | EmptyString => extra a
  | String c rest =>
      if Ascii.eqb c "%"%char then
        match rest with
        | EmptyString => "%!(NOVERB)" ++ extra a
        | String verb rest' =>
            if Ascii.eqb verb "%"%char then String "%" (Sprintf rest' a)
            else match a with
                 | [] => "%!" ++ String verb "(MISSING)" ++ Sprintf rest' []
                 | x :: a' => printArg x verb ++ Sprintf rest' a'
                 end
        end
      else String c (Sprintf rest a)
  end.

(** whether [printArg] can print the operand under the verb *)
Definition verbOk (a : value) (verb : ascii) : bool :=
  match a with
  | VInt _ => (Ascii.eqb verb "d" || Ascii.eqb verb "v")%char
  | VString _ => (Ascii.eqb verb "s" || Ascii.eqb verb "v")%char
  end.

(** Whether the operands fail to fit the verbs of the format: a verb without
    operand, an operand of the wrong type for its verb (so also operands in
    the wrong order), operands left over, or a [%] without verb. *)
Fixpoint mismatch (format : string) (a : list value) : bool :=
  match format with
  | EmptyString => match a with [] => false | _ => true end
  | String c rest =>
      if Ascii.eqb c "%"%char then
        match rest with
        | EmptyString => true
        | String verb rest' =>
            if Ascii.eqb verb "%"%char then mismatch rest' a
            else match a with
                 | [] => true
                 | x :: a' => negb (verbOk x verb) || mismatch rest' a'
                 end
        end
      else mismatch rest a
  end.

End Fmt.

(** ** The package's errors *)

(** A non-nil [error].  The named values are the package's sentinels;
    [NetError] is an error that implements [net.Error], with what its
    [Timeout()] answers; [OtherError] is any other error of the transport
    (such as [io.EOF]).  The nil error is [None]. *)
Inductive error : Type :=
| ErrBytesArgs
| ErrBytesFormat
| ErrTimeout
| ErrBusy
| ErrNotConnected
| ErrMatch
| errUnformedResponse
| NetError (timeout : bool) (msg : string)
| OtherError (msg : string).

(** [toerr, ok := err.(net.Error); ok && toerr.Timeout()] *)
Definition isNetTimeout (err : option error) : bool :=
  match err with
  | Some (NetError true _) => true
  | _ => false
  end.

(** ** Package time *)

Local Open Scope Z_scope.

(** [time.Duration]: an int64 count of nanoseconds *)
Definition Duration := Z.
(** [time.Time], as nanoseconds on the clock's axis *)
Definition Time := Z.

Definition maxDuration : Duration := 2 ^ 63 - 1.
Definition minDuration : Duration := - 2 ^ 63.

(** [t.Sub(u)]: the difference, saturated to the range of a Duration *)
Definition Sub (t u : Time) : Duration :=
  Z.max minDuration (Z.min maxDuration (t - u)).

(** [time.Since(t)] at a clock reading [now] *)
Definition Since (now t : Time) : Duration := Sub now t.

(** ** Command, Response and request *)

Record Command : Type := mkCommand {
  cmd_Name : string;
  cmd_Timeout : Duration;
  cmd_Prototype : string;
  cmd_CommandRegexp : Regexp.Regexp;
  cmd_Response : Regexp.Regexp;
  cmd_Error : Regexp.Regexp;
  cmd_Description : string
}.

Record Response : Type := mkResponse {
  resp_Bytes : bytes;
  resp_Error : option error;
  resp_Duration : Duration
}.

Record request : Type := mkRequest {
  req_Command : Command;
  req_bytes : bytes
}.

(** [Response{Error: e}]: the other fields keep their zero values *)
Definition Response_Error (e : option error) : Response :=
  {| resp_Bytes := []; resp_Error := e; resp_Duration := 0%Z |}.

(** [Command.Bytes], over the formatter it calls *)
Definition Bytes (Sprintf : string -> list value -> string)
           (c : Command) (v : list value) : bytes * option error :=
  let str := Sprintf (cmd_Prototype c) v in
  if Contains str "%!"%string then (bytes_of_string str, Some ErrBytesArgs)
  else if negb (Regexp.MatchString (cmd_CommandRegexp c) str)
       then (bytes_of_string str, Some ErrBytesFormat)
       else (bytes_of_string str, None).

(** ** The tcp worker *)

(** the worker's states, values of an [int] *)
Definition idle : Z := 0.
Definition waitingOnReply : Z := 1.
Definition responseFormed : Z := 2.

(** The fields of [tcp] that the worker and the engine read and write.  The
    connection, the ticker and the channels are outside: each call on them
    takes its outcome as an input and leaves an [event]. *)
Record tcp : Type := mkTcp {
  tcp_alive : bool;
  tcp_addr : string;
  tcp_ibuf : bytes;
  tcp_request : request;
  tcp_response : Response;
  tcp_reqTime : Time;
  tcp_state : Z;
  tcp_err : option error
}.

(** What a call puts on the connection or on a channel, in program order. *)
Inductive event : Type :=
| ConnWrite (b : bytes)        (* t.conn.Write(b) *)
| SreqSend (r : request)       (* t.sreq <- r *)
| SrespSend (r : Response).    (* t.sresp <- r *)

Definition set_ibuf (b : bytes) (t : tcp) : tcp :=
  mkTcp (tcp_alive t) (tcp_addr t) b (tcp_request t) (tcp_response t)
        (tcp_reqTime t) (tcp_state t) (tcp_err t).

Definition set_request (r : request) (t : tcp) : tcp :=
  mkTcp (tcp_alive t) (tcp_addr t) (tcp_ibuf t) r (tcp_response t)
        (tcp_reqTime t) (tcp_state t) (tcp_err t).

Definition set_response (r : Response) (t : tcp) : tcp :=
  mkTcp (tcp_alive t) (tcp_addr t) (tcp_ibuf t) (tcp_request t) r
        (tcp_reqTime t) (tcp_state t) (tcp_err t).

Definition set_reqTime (x : Time) (t : tcp) : tcp :=
  mkTcp (tcp_alive t) (tcp_addr t) (tcp_ibuf t) (tcp_request t)
        (tcp_response t) x (tcp_state t) (tcp_err t).

Definition set_state (x : Z) (t : tcp) : tcp :=
  mkTcp (tcp_alive t) (tcp_addr t) (tcp_ibuf t) (tcp_request t)
        (tcp_response t) (tcp_reqTime t) x (tcp_err t).

Definition set_err (e : option error) (t : tcp) : tcp :=
  mkTcp (tcp_alive t) (tcp_addr t) (tcp_ibuf t) (tcp_request t)
        (tcp_response t) (tcp_reqTime t) (tcp_state t) e.

(** [t.response.Error = e] *)
Definition set_response_Error (e : option error) (t : tcp) : tcp :=
  set_response (mkResponse (resp_Bytes (tcp_response t)) e
                           (resp_Duration (tcp_response t))) t.

(** [Control]: [reply] is what the worker hands back on [t.sresp] when the
    request reaches it.  The result comes with the messages sent. *)
Definition Control (Sprintf : string -> list value -> string)
           (t : tcp) (cmd : Command) (args : list value) (reply : Response)
  : Response * list event :=
  if negb (tcp_alive t) then (Response_Error (Some ErrNotConnected), [])
  else
    let '(b, err) := Bytes Sprintf cmd args in
    let ireq := mkRequest cmd b in
    match err with
    | Some e => (Response_Error (Some e), [])
    | None => (reply, [SreqSend ireq])
    end.

(** The outcome of [t.conn.Read(b)]: the bytes [b[0:n]] and the error. *)
Record readResult : Type := mkRead {
  read_bytes : bytes;
  read_err : option error
}.

(** [sock2ibuf], one statement after the other. *)
Definition sock2ibuf (t : tcp) (rd : readResult) : tcp :=
  let t := set_ibuf (tcp_ibuf t ++ read_bytes rd) t in
  let t :=
    if isNetTimeout (read_err rd) then set_err None t
    else match read_err rd with
         | Some e => set_err (Some e) t
         | None => t
         end in
  set_err None t.

(** [alterResp], the closure of [checkState]; [now] is the clock reading of
    its [time.Since]. *)
Definition alterResp (now : Time) (e : option error) (by_ : bytes) (t : tcp)
  : tcp :=
  set_state responseFormed
    (set_response (mkResponse by_ e (Since now (tcp_reqTime t))) t).

(** [checkState]: [now] is the reading of [time.Now()] in the deadline test
    and [now'] the later one inside [alterResp]. *)
Definition checkState (t : tcp) (now now' : Time) : tcp * (Response * Z) :=
  if tcp_state t =? waitingOnReply then
    let t := set_response_Error (Some errUnformedResponse) t in
    let cmd := req_Command (tcp_request t) in
    if Sub now (tcp_reqTime t) >? cmd_Timeout cmd then
      let t := alterResp now' (Some ErrTimeout) (tcp_ibuf t) t in
      (t, (tcp_response t, tcp_state t))
    else if Regexp.Match (cmd_Error cmd) (tcp_ibuf t) then
      let t := alterResp now' (Some ErrMatch) (tcp_ibuf t) t in
      (t, (tcp_response t, tcp_state t))
    else if Regexp.Match (cmd_Response cmd) (tcp_ibuf t) then
      let t := alterResp now' None
                 (Regexp.Find (cmd_Response cmd) (tcp_ibuf t)) t in
      (t, (tcp_response t, tcp_state t))
    else (t, (tcp_response t, tcp_state t))
  else (t, (tcp_response t, tcp_state t)).

(** [handleIncoming]: [wr] is the error of [t.conn.Write] and [now] the
    reading of [time.Now()], both only used when the worker is idle. *)
Definition handleIncoming (t : tcp) (r : request) (wr : option error)
           (now : Time) : tcp * list event :=
  if negb (tcp_state t =? idle) then
    let resp := mkResponse [] (Some ErrBusy) 0 in
    let resp :=
      match tcp_err t with
      | Some e => mkResponse (resp_Bytes resp) (Some e) (resp_Duration resp)
      | None => resp
      end in
    (t, [SrespSend resp])
  else
    let t := set_ibuf [] t in
    match wr with
    | Some err =>
        let t := set_err (Some err) t in
        (t, [ConnWrite (req_bytes r);
             SrespSend (mkResponse [] (Some err) 0)])
    | None =>
        let t := set_request r t in
        let t := set_reqTime now t in
        let t := set_state waitingOnReply t in
        (t, [ConnWrite (req_bytes r)])
    end.

(** What wakes the worker's loop, with the outcome of the call it makes. *)
Inductive wake : Type :=
| Tick (rd : readResult)
| Incoming (r : request) (wr : option error) (now : Time).

(** One turn of the loop of [runner] for a tick or a request: the handler,
    [checkState], then the attempt to hand over a formed response, which
    succeeds when the caller is [ready] to receive. *)
Definition runner_step (t : tcp) (w : wake) (now now' : Time) (ready : bool)
  : tcp * list event :=
  let '(t, evs) :=
    match w with
    | Tick rd => (sock2ibuf t rd, [])
    | Incoming r wr tn => handleIncoming t r wr tn
    end in
  let t := fst (checkState t now now') in
  if tcp_state t =? responseFormed then
    if ready then (set_state idle t, evs ++ [SrespSend (tcp_response t)])
    else (t, evs)
  else (t, evs).

(** The worker polling the connection: a run of ticks. *)
Fixpoint polls (t : tcp) (ticks : list (readResult * (Time * Time) * bool))
  : tcp :=
  match ticks with
  | [] => t
  | (rd, (now, now'), ready) :: rest =>
      polls (fst (runner_step t (Tick rd) now now' ready)) rest
  end.

(** ** The commands of the package's tests, and two more for the runs below *)

Local Open Scope string_scope.

Definition millisecond : Duration := 1000000.
Definition second : Duration := 1000000000.

(** the command of [TestTcp_checkState]: success [[a-z]{1,}\n], failure
    [[0-9]{1,}\n] *)
Definition testCommand : Command :=
  {| cmd_Name := "test";
     cmd_Timeout := 5 * second;
     cmd_Prototype := "test";
     cmd_CommandRegexp := Regexp.text "test";
     cmd_Response :=
       Regexp.Cat (Regexp.plus (Regexp.range "a" "z")) (Regexp.lit "010");
     cmd_Error :=
       Regexp.Cat (Regexp.plus (Regexp.range "0" "9")) (Regexp.lit "010");
     cmd_Description := "" |}.

(** [pingOk]: prototype, validation and success pattern [\r], failure [a^] *)
Definition pingOk : Command :=
  {| cmd_Name := "ping";
     cmd_Timeout := 300 * millisecond;
     cmd_Prototype := String "013" "";
     cmd_CommandRegexp := Regexp.lit "013";
     cmd_Response := Regexp.lit "013";
     cmd_Error := Regexp.never;
     cmd_Description := "" |}.

(** [pingWrong]: a prototype with a verb, validation pattern [.*] *)
Definition pingWrong : Command :=
  {| cmd_Name := "ping wrong";
     cmd_Timeout := 300 * millisecond;
     cmd_Prototype := "Req Arg, No Arg %d" ++ String "013" "";
     cmd_CommandRegexp := Regexp.Star Regexp.dot;
     cmd_Response := Regexp.lit "013";
     cmd_Error := Regexp.never;
     cmd_Description := "" |}.

(** a command that takes one integer: prototype [%d], validation [[0-9]+] *)
Definition setCommand : Command :=
  {| cmd_Name := "set";
     cmd_Timeout := second;
     cmd_Prototype := "%d";
     cmd_CommandRegexp := Regexp.plus (Regexp.range "0" "9");
     cmd_Response := Regexp.text "ok";
     cmd_Error := Regexp.text "err";
     cmd_Description := "" |}.

(** a command whose validation pattern [test] is shorter than its
    prototype [xtestx] *)
Definition paddedCommand : Command :=
  {| cmd_Name := "padded";
     cmd_Timeout := second;
     cmd_Prototype := "xtestx";
     cmd_CommandRegexp := Regexp.text "test";
     cmd_Response := Regexp.text "ok";
     cmd_Error := Regexp.text "err";
     cmd_Description := "" |}.

(** [new(tcp)]: every field at its zero value (the nil patterns of the zero
    Command are rendered as the empty pattern; nothing below runs them) *)
Definition new_tcp : tcp :=
  {| tcp_alive := false;
     tcp_addr := "";
     tcp_ibuf := [];
     tcp_request :=
       mkRequest (mkCommand "" 0 "" Regexp.Eps Regexp.Eps Regexp.Eps "") [];
     tcp_response := mkResponse [] None 0;
     tcp_reqTime := 0;
     tcp_state := idle;
     tcp_err := None |}.

(** a worker waiting on the reply to the command [c], issued at time 0,
    with [buf] read so far *)
Definition waitingOn (c : Command) (buf : bytes) : tcp :=
  set_state waitingOnReply
    (set_request (mkRequest c (bytes_of_string (cmd_Prototype c)))
       (set_ibuf buf new_tcp)).

Local Close Scope string_scope.

(** ** The engine and the worker together *)

Definition set_alive (a : bool) (t : tcp) : tcp :=
  mkTcp a (tcp_addr t) (tcp_ibuf t) (tcp_request t) (tcp_response t)
        (tcp_reqTime t) (tcp_state t) (tcp_err t).

Definition set_addr (a : string) (t : tcp) : tcp :=
  mkTcp (tcp_alive t) a (tcp_ibuf t) (tcp_request t) (tcp_response t)
        (tcp_reqTime t) (tcp_state t) (tcp_err t).

(** One tick of the worker: the outcome of the read and the two clock
    readings of [checkState]. *)
Definition tick : Type := readResult * (Time * Time).

(** The responses put on [t.sresp], in order. *)
Fixpoint responses (evs : list event) : list Response :=
  match evs with
  | [] => []
  | SrespSend r :: evs' => r :: responses evs'
  | _ :: evs' => responses evs'
  end.

(** The texts written on the connection, in order. *)
Fixpoint written (evs : list event) : list bytes :=
  match evs with
  | [] => []
  | ConnWrite b :: evs' => b :: written evs'
  | _ :: evs' => written evs'
  end.

(** The turns of [runner]'s loop, one after the other, with what they put
    on the connection and on [t.sresp]. *)
Fixpoint runner_run (t : tcp) (steps : list (wake * (Time * Time) * bool))
  : tcp * list event :=
  match steps with
  | [] => (t, [])
  | (w, (now, now'), ready) :: rest =>
      let '(t1, e1) := runner_step t w now now' ready in
      let '(t2, e2) := runner_run t1 rest in
      (t2, e1 ++ e2)
  end.

(** Ticks while no caller waits in [Control]: nobody receives on
    [t.sresp]. *)
Definition idle_ticks (t : tcp) (ticks : list tick) : tcp :=
  polls t (map (fun x : tick => (fst x, snd x, false)) ticks).

(** The worker's turn for the request of a caller that waits in [Control]
    for the reply.  The caller takes the first response: when
    [handleIncoming] answers at once, nobody is left to receive at the
    hand-over that ends the turn. *)
Definition serve (t : tcp) (r : request) (wr : option error) (now : Time)
           (chk : Time * Time) : tcp * list event :=
  let ready :=
    match responses (snd (handleIncoming t r wr now)) with
    | [] => true
    | _ :: _ => false
    end in
  runner_step t (Incoming r wr now) (fst chk) (snd chk) ready.

(** The ticks that follow while the caller waits: the first response put on
    [t.sresp] is the reply.  [None] when the ticks given are used up and
    the caller still waits. *)
Fixpoint await (t : tcp) (ticks : list tick) : tcp * option Response :=
  match ticks with
  | [] => (t, None)
  | (rd, (now, now')) :: rest =>
      let '(t1, evs) := runner_step t (Tick rd) now now' true in
      match responses evs with
      | r :: _ => (t1, Some r)
      | [] => await t1 rest
      end
  end.

(** What the surroundings do during one call of [Control]: the ticks before
    the request reaches the worker, the outcome of the write, the clock
    readings of the worker's turn, and the ticks that follow. *)
Record exchange : Type := mkExchange {
  ex_before : list tick;
  ex_wr : option error;
  ex_now : Time;
  ex_chk : Time * Time;
  ex_after : list tick
}.

(** [Control] with the worker of [runner] at the other end of [t.sreq] and
    [t.sresp]: the reply is the one the worker gives.  The result is the
    worker afterwards, the response ([None] when the caller still waits
    after the last tick of [x]) and what the worker's turn for the request
    put on the connection and on [t.sresp]. *)
Definition ControlWorker (Sprintf : string -> list value -> string)
           (t : tcp) (cmd : Command) (args : list value) (x : exchange)
  : tcp * option Response * list event :=
  if negb (tcp_alive t) then
    (t, Some (Response_Error (Some ErrNotConnected)), [])
  else
    let t := idle_ticks t (ex_before x) in
    let '(b, err) := Bytes Sprintf cmd args in
    match err with
    | Some e => (t, Some (Response_Error (Some e)), [])
    | None =>
        let '(t1, evs) :=
          serve t (mkRequest cmd b) (ex_wr x) (ex_now x) (ex_chk x) in
        match responses evs with
        | r :: _ => (t1, Some r, evs)
        | [] => let '(t2, r) := await t1 (ex_after x) in (t2, r, evs)
        end
    end.

(** How a call of [Dial] ends: it returns an error or nil, it panics, or it
    still waits for a reply when the ticks given are used up. *)
Inductive dialResult : Type :=
| DialReturned (err : option error)
| DialPanicked (msg : string)
| DialBlocked.

(** The loop of [Dial] that sends the ping [n] times.  On the first reply
    with an error the worker is stopped ([t.stop <- nil; <-t.stop], on
    which [runner] sets [t.alive = false]) after the ticks [final] that
    precede the stop, and the error is returned. *)
Fixpoint ping_loop (Sprintf : string -> list value -> string) (n : nat)
         (t : tcp) (pingCmd : Command) (xs : list exchange)
         (final : list tick) : tcp * dialResult * list event :=
  match n with
  | O => (t, DialReturned None, [])
  | S n' =>
      match xs with
      | [] => (t, DialBlocked, [])
      | x :: xs' =>
          match ControlWorker Sprintf t pingCmd [] x with
          | (t1, None, evs) => (t1, DialBlocked, evs)
          | (t1, Some resp, evs) =>
              match resp_Error resp with
              | Some e =>
                  (set_alive false (idle_ticks t1 final),
                   DialReturned (Some e), evs)
              | None =>
                  let '(t2, res, evs') :=
                    ping_loop Sprintf n' t1 pingCmd xs' final in
                  (t2, res, evs ++ evs')
              end
          end
      end
  end.

(** [Dial]: [dialErr] is the error of [net.DialTimeout], [xs] what the
    surroundings do during the pings.  [runner] sets [t.alive = true]
    before it signals on [setup]. *)
Definition Dial (Sprintf : string -> list value -> string)
           (t : tcp) (addr : string) (timeout : Duration) (pingCmd : Command)
           (dialErr : option error) (xs : list exchange) (final : list tick)
  : tcp * dialResult * list event :=
  let t := set_addr addr t in
  let t := set_err dialErr t in
  match dialErr with
  | Some e => (t, DialReturned (Some e), [])
  | None =>
      let t := set_alive true t in
      match snd (Bytes Sprintf pingCmd []) with
      | Some _ => (t, DialPanicked "tcp Ping command cannot require args", [])
      | None => ping_loop Sprintf 3 t pingCmd xs final
      end
  end.

(** [Close]: [ack] is what the select receives after [t.stop <- nil]:
    [None] when the 40 ms ticker fires first, [Some err] when [err] arrives
    on [t.stop].  The result comes with the values sent on [t.stop]. *)
Definition Close (t : tcp) (ack : option (option error))
  : option error * list (option error) :=
  if tcp_alive t then
    match ack with
    | None => (Some ErrTimeout, [None])
    | Some err => (err, [None])
    end
  else (None, []).

(** The stop case of [runner]'s loop: [t.alive = false], then
    [t.stop <- nil]; the result is the worker and the value it sends. *)
Definition runner_stop (t : tcp) : tcp * option error :=
  (set_alive false t, None).

(** [Close] with the worker of [runner] at the other end of [t.stop]:
    [before] are the ticks that precede the stop, [timely] whether the
    worker's answer arrives before the ticker fires.  The engine returned
    is the one the worker leaves when it has run its stop case; when the
    answer is not in time, that may be after [Close] has returned. *)
Definition CloseWorker (t : tcp) (before : list tick) (timely : bool)
  : tcp * option error :=
  if tcp_alive t then
    let '(t1, ack) := runner_stop (idle_ticks t before) in
    (t1, fst (Close t (if timely then Some ack else None)))
  else (t, fst (Close t None)).

(** ** Predicates of the properties below *)

(** The errors [checkState] forms a response with. *)
Definition formed_error (e : option error) : Prop :=
  e = None \/ e = Some ErrTimeout \/ e = Some ErrMatch.

(** The worker's state is one of the three, and a response that waits to
    be handed over carries an outcome. *)
Definition wf (t : tcp) : Prop :=
  tcp_state t = idle
  \/ tcp_state t = waitingOnReply
  \/ (tcp_state t = responseFormed
      /\ formed_error (resp_Error (tcp_response t))).

(** What [handleIncoming] answers at once carries no bytes, no duration and
    an error. *)
Definition immediate (r : Response) : Prop :=
  resp_Bytes r = [] /\ resp_Duration r = 0 /\ resp_Error r <> None.

(** The bytes read by the ticks. *)
Definition received (ticks : list tick) : bytes :=
  concat (map (fun x : tick => read_bytes (fst x)) ticks).

(** [m] is a stretch of [b]. *)
Definition infix_of (m b : bytes) : Prop :=
  exists pre post, b = pre ++ m ++ post.

(** The decision of [checkState] for a worker that waits on the reply to
    [cmd], as a function of the buffer and of the time elapsed: the error
    and the bytes of the response it forms, if it forms one. *)
Definition classify (cmd : Command) (buf : bytes) (elapsed : Duration)
  : option (option error * bytes) :=
  if elapsed >? cmd_Timeout cmd then Some (Some ErrTimeout, buf)
  else if Regexp.Match (cmd_Error cmd) buf then Some (Some ErrMatch, buf)
  else if Regexp.Match (cmd_Response cmd) buf
       then Some (None, Regexp.Find (cmd_Response cmd) buf)
       else None.

(** The response [r] is an outcome of [cmd] on the bytes [buf] received:
    the timeout or the failure with all of [buf], or the success with the
    stretch of [buf] that the success pattern matches. *)
Definition outcome_of (cmd : Command) (buf : bytes) (r : Response) : Prop :=
  (resp_Error r = Some ErrTimeout /\ resp_Bytes r = buf)
  \/ (resp_Error r = Some ErrMatch /\ resp_Bytes r = buf
      /\ matches_anywhere (cmd_Error cmd) buf)
  \/ (resp_Error r = None
      /\ resp_Bytes r = Regexp.Find (cmd_Response cmd) buf
      /\ ~ matches_anywhere (cmd_Error cmd) buf
      /\ Regexp.matches (cmd_Response cmd) (resp_Bytes r)
      /\ infix_of (resp_Bytes r) buf).

(** The worker that has accepted the request [r] at time [now]. *)
Definition accepted (t : tcp) (r : request) (now : Time) : tcp :=
  set_state waitingOnReply (set_reqTime now (set_request r (set_ibuf [] t))).

(** The reply [r] to a call of [Control] that found the worker idle: the
    error of [Bytes], the error of the write, or an outcome of the command
    on the bytes read by the first [k] ticks after the request. *)
Definition reply_of (Sprintf : string -> list value -> string)
           (cmd : Command) (args : list value) (x : exchange) (r : Response)
  : Prop :=
  (exists e, snd (Bytes Sprintf cmd args) = Some e
             /\ r = Response_Error (Some e))
  \/ (snd (Bytes Sprintf cmd args) = None
      /\ exists e, ex_wr x = Some e /\ r = mkResponse [] (Some e) 0)
  \/ (snd (Bytes Sprintf cmd args) = None /\ ex_wr x = None
      /\ exists k, (k <= length (ex_after x))%nat
                   /\ outcome_of cmd (received (firstn k (ex_after x))) r).

(** ** The rest of the command model *)

Local Open Scope string_scope.

(** [pingBad] of the tests: the simulator does not echo it *)
Definition pingBad : Command :=
  {| cmd_Name := "ping with no echo";
     cmd_Timeout := 150 * millisecond;
     cmd_Prototype := "DONT-ECHO";
     cmd_CommandRegexp := Regexp.text "DONT-ECHO";
     cmd_Response := Regexp.text "DONT-ECHO";
     cmd_Error := Regexp.never;
     cmd_Description := "" |}.

(** [strings.Replace(s, old, new, -1)] for an [old] of one byte *)
Fixpoint Replace1 (s : string) (old : ascii) (new : string) : string :=
  match s with
  | EmptyString => EmptyString
  | String c s' =>
      if Ascii.eqb c old then new ++ Replace1 s' old new
      else String c (Replace1 s' old new)
  end.

(** What [Command.String] passes to its closure [sanitize]: a pattern, nil
    or with the source text that its [String()] returns, a string, or a
    value of another type. *)
Inductive sanitizeArg : Type :=
| SRegexp (src : option string)
| SString (s : string)
| SOther.

(** [sanitize], the closure of [Command.String] *)
Definition sanitize (i : sanitizeArg) : string :=
  match i with
  | SRegexp None => "nil"
  | _ =>
      let str :=
        match i with
        | SRegexp (Some src) => src
        | SString s => s
        | _ => ""
        end in
      Replace1 (Replace1 str "013" (String "\" "r")) "010" (String "\" "n")
  end.

(** [Commands.JSONLabels]: [labels] are the keys of the map in the order
    the [range] visits them; the counter [i] stays far below the range of
    an [int]. *)
Definition JSONLabels (Sprintf : string -> list value -> string)
           (labels : list string) : string :=
  let step (st : string * Z) (lab : string) : string * Z :=
    let '(r, i) := st in
    let r := if (i =? 0)%Z then r else r ++ "," in
    (r ++ Sprintf "%q" [VString lab], (i + 1)%Z) in
  fst (fold_left step labels ("[", 0%Z)) ++ "]".

Local Close Scope string_scope.

(** * Properties *)

(** ** The matcher and the language of a pattern *)

Module RegexpFacts.
Import Regexp.

Local Close Scope Z_scope.

Section Soundness.
Variable A : Type.

Lemma star_loop_sound (r : Regexp)
      (step : bytes -> (bytes -> option A) -> option A) :
  (forall s k x, step s k = Some x ->
     exists s1 s2, s = s1 ++ s2 /\ matches r s1 /\ k s2 = Some x) ->
  forall n s k x, star_loop step n s k = Some x ->
    exists s1 s2, s = s1 ++ s2 /\ matches (Star r) s1 /\ k s2 = Some x.
Proof.
  intros Hstep n.
  induction n as [|n IH]; intros s k x H; simpl in H.
  - exists [], s. repeat split; [constructor | exact H].
  - destruct (step s _) as [y|] eqn:E.
    + inversion H; subst y; clear H.
      apply Hstep in E.
      destruct E as (s1 & s2 & -> & Hm & Hk).
      destruct (length s2 <? length (s1 ++ s2)); [|discriminate].
      apply IH in Hk.
      destruct Hk as (s3 & s4 & -> & Hm' & Hk).
      exists (s1 ++ s3), s4.
      rewrite app_assoc. repeat split; [|exact Hk].
      now constructor.
    + exists [], s. repeat split; [constructor | exact H].
Qed.

Lemma exec_sound (r : Regexp) :
  forall s (k : bytes -> option A) x, exec r s k = Some x ->
    exists s1 s2, s = s1 ++ s2 /\ matches r s1 /\ k s2 = Some x.
Proof.
  induction r as [|cl|r1 IH1 r2 IH2|r1 IH1 r2 IH2|r IH];
    intros s k x H; simpl in H.
  - exists [], s. repeat split; [constructor | exact H].
  - destruct s as [|c s]; [discriminate|].
    destruct (accepts cl c) eqn:E; [|discriminate].
    exists [c], s. repeat split; [now constructor | exact H].
  - apply IH1 in H. destruct H as (s1 & s2 & -> & Hm1 & H).
    apply IH2 in H. destruct H as (s3 & s4 & -> & Hm2 & H).
    exists (s1 ++ s3), s4. rewrite app_assoc.
    repeat split; [now constructor | exact H].
  - destruct (exec r1 s k) as [y|] eqn:E.
    + inversion H; subst y. apply IH1 in E.
      destruct E as (s1 & s2 & -> & Hm & Hk).
      exists s1, s2. repeat split; [now apply MAltL | exact Hk].
    + apply IH2 in H. destruct H as (s1 & s2 & -> & Hm & Hk).
      exists s1, s2. repeat split; [now apply MAltR | exact Hk].
  - eapply star_loop_sound; eauto.
Qed.

End Soundness.

Section Completeness.
Variable A : Type.

Lemma star_loop_complete (r : Regexp)
      (step : bytes -> (bytes -> option A) -> option A) :
  (forall s1, matches r s1 -> forall s2 k x,
     k s2 = Some x -> step (s1 ++ s2) k <> None) ->
  forall r' s1, matches r' s1 -> r' = Star r ->
  forall n s2 (k : bytes -> option A) x,
    k s2 = Some x -> length (s1 ++ s2) <= n ->
    star_loop step n (s1 ++ s2) k <> None.
Proof.
  intros Hstep r' s1 Hm.
  induction Hm as [| | | | |r0|r0 a b Ha _ Hb IHb]; intros Heq; try discriminate.
  - intros n s2 k x Hk _. simpl.
    destruct n; simpl; [congruence|].
    destruct (step s2 _); congruence.
  - inversion Heq; subst r0.
    intros n s2 k x Hk Hlen.
    destruct a as [|c a].
    + simpl. now apply (IHb eq_refl n s2 k x).
    + destruct n as [|n]; [simpl in Hlen; lia|].
      simpl star_loop.
      match goal with
      | |- match step ?s ?k' with _ => _ end <> None =>
          assert (Hs : step s k' <> None)
      end.
      { rewrite <- app_assoc.
        assert (Hb' : star_loop step n (b ++ s2) k <> None).
        { apply (IHb eq_refl n s2 k x Hk).
          simpl in Hlen. rewrite !length_app in *. simpl in Hlen. lia. }
        destruct (star_loop step n (b ++ s2) k) as [y|] eqn:E; [|congruence].
        apply (Hstep _ Ha (b ++ s2) _ y).
        assert (Hlt : (length (b ++ s2) <? length ((c :: a) ++ b ++ s2))
                      = true).
        { apply Nat.ltb_lt. simpl. rewrite !length_app. lia. }
        simpl in Hlt |- *. rewrite Hlt. exact E. }
      destruct (step _ _); congruence.
Qed.

Lemma exec_complete (r : Regexp) :
  forall s1, matches r s1 -> forall s2 (k : bytes -> option A) x,
    k s2 = Some x -> exec r (s1 ++ s2) k <> None.
Proof.
  induction r as [|cl|r1 IH1 r2 IH2|r1 IH1 r2 IH2|r IH];
    intros s1 Hm s2 k x Hk.
  - inversion Hm; subst. simpl. congruence.
  - inversion Hm; subst. simpl.
    match goal with H : accepts _ _ = true |- _ => rewrite H end.
    congruence.
  - inversion Hm; subst. simpl. rewrite <- app_assoc.
    destruct (exec r2 (s3 ++ s2) k) as [y|] eqn:E.
    + eapply IH1; eauto.
    + exfalso. eapply IH2; eauto.
  - simpl. inversion Hm; subst.
    + destruct (exec r1 (s1 ++ s2) k) eqn:E; [congruence|].
      exfalso. eapply IH1; eauto.
    + destruct (exec r1 (s1 ++ s2) k) eqn:E; [congruence|].
      eapply IH2; eauto.
  - simpl. eapply star_loop_complete; eauto.
Qed.

End Completeness.

Lemma match_here_sound (r : Regexp) (s m : bytes) :
  match_here r s = Some m -> match_at r s [] m.
Proof.
  unfold match_here. intros H.
  apply exec_sound in H. destruct H as (s1 & s2 & -> & Hm & H).
  inversion H; subst m; clear H.
  rewrite length_app.
  replace (length s1 + length s2 - length s2) with (length s1 + 0) by lia.
  rewrite firstn_app_2. simpl. rewrite app_nil_r.
  exists s2. now split.
Qed.

Lemma match_here_complete (r : Regexp) (s m : bytes) :
  match_at r s [] m -> match_here r s <> None.
Proof.
  intros (post & -> & Hm). unfold match_here. simpl.
  eapply exec_complete; eauto.
Qed.

(** [find] returns a match, and no match starts before it. *)
Lemma find_sound (r : Regexp) :
  forall s m, find r s = Some m ->
    exists pre, match_at r s pre m /\
      forall pre' m', match_at r s pre' m' -> length pre <= length pre'.
Proof.
  induction s as [|c s IH]; intros m H; simpl in H.
  - destruct (match_here r []) as [m0|] eqn:E; [|discriminate].
    inversion H; subst m0. exists []. split.
    + now apply match_here_sound.
    + intros; simpl; lia.
  - destruct (match_here r (c :: s)) as [m0|] eqn:E.
    + inversion H; subst m0. exists []. split.
      * now apply match_here_sound.
      * intros; simpl; lia.
    + apply IH in H. destruct H as (pre & (post & -> & Hm) & Hleft).
      exists (c :: pre). split.
      * exists post. now split.
      * intros pre' m' Hat. destruct pre' as [|c' pre'].
        -- exfalso. now apply match_here_complete in Hat.
        -- destruct Hat as (post' & Heq & Hm'). simpl in Heq.
           inversion Heq as [[Hc Hs]].
           simpl. apply le_n_S. apply (Hleft pre' m').
           exists post'. now split.
Qed.

Lemma find_complete (r : Regexp) :
  forall pre s m, match_at r s pre m -> find r s <> None.
Proof.
  induction pre as [|c pre IH]; intros s m Hat.
  - apply match_here_complete in Hat.
    destruct s; simpl; destruct (match_here r _); congruence.
  - destruct Hat as (post & -> & Hm). simpl.
    destruct (match_here r _); [congruence|].
    apply (IH _ m). exists post. now split.
Qed.

(** [Match] answers whether the text contains a match. *)
Lemma Match_true (r : Regexp) (b : bytes) :
  Match r b = true <-> exists pre m, match_at r b pre m.
Proof.
  unfold Match. split.
  - destruct (find r b) as [m|] eqn:E; [|discriminate].
    intros _. apply find_sound in E. destruct E as (pre & Hat & _).
    now exists pre, m.
  - intros (pre & m & Hat). apply find_complete in Hat.
    destruct (find r b); congruence.
Qed.

(** A text in the language of the pattern contains a match: itself. *)
Lemma matches_Match (r : Regexp) (b : bytes) :
  matches r b -> Match r b = true.
Proof.
  intros Hm. apply Match_true. exists [], b, []. simpl.
  rewrite app_nil_r. now split.
Qed.

(** When [Match] holds, [Find] is the leftmost stretch of the text that the
    pattern matches. *)
Lemma Find_Match (r : Regexp) (b : bytes) :
  Match r b = true ->
  exists pre, match_at r b pre (Find r b) /\
    forall pre' m', match_at r b pre' m' -> length pre <= length pre'.
Proof.
  unfold Match, Find. destruct (find r b) as [m|] eqn:E; [|discriminate].
  intros _. now apply find_sound.
Qed.

Lemma full_match_spec (r : Regexp) (s : bytes) :
  full_match r s = true <-> matches r s.
Proof.
  unfold full_match. split.
  - destruct (exec r s _) as [u|] eqn:E; [|discriminate]. intros _.
    apply exec_sound in E. destruct E as (s1 & s2 & -> & Hm & Hk).
    destruct s2; [|discriminate]. now rewrite app_nil_r.
  - intros Hm.
    pose proof (@exec_complete unit r s Hm []
                  (fun rest => match rest with [] => Some tt | _ => None end)
                  tt eq_refl) as H.
    rewrite app_nil_r in H. destruct (exec r s _); congruence.
Qed.

End RegexpFacts.

(** ** The poll step *)

Lemma sock2ibuf_ibuf (t : tcp) (rd : readResult) :
  tcp_ibuf (sock2ibuf t rd) = tcp_ibuf t ++ read_bytes rd.
Proof. unfold sock2ibuf. destruct (isNetTimeout _), (read_err rd); reflexivity. Qed.

Lemma sock2ibuf_state (t : tcp) (rd : readResult) :
  tcp_state (sock2ibuf t rd) = tcp_state t.
Proof. unfold sock2ibuf. destruct (isNetTimeout _), (read_err rd); reflexivity. Qed.

(** C1: [sock2ibuf] ends with [t.err = nil] whatever the read returned.  A
    read that ends with a timeout leaves the internal error nil, as the
    claim says; a read that ends with any other error [e] stores [e] and
    then overwrites it, so [e] is not stored when the poll step returns. *)
Theorem sock2ibuf_err_nil (t : tcp) (data : bytes) (e : error) :
  tcp_err (sock2ibuf t (mkRead data (Some e))) = None
  /\ tcp_err (sock2ibuf t (mkRead data (Some e))) <> Some e
  /\ tcp_err (sock2ibuf t (mkRead data None)) = None.
Proof.
  unfold sock2ibuf. cbn [read_err read_bytes].
  destruct (isNetTimeout (Some e)); cbn; repeat split; discriminate.
Qed.

(** The failing run: the peer closed the connection and the read ends with
    [io.EOF], which is no timeout; the worker holds no error afterwards. *)
Example sock2ibuf_EOF :
  isNetTimeout (Some (OtherError "EOF")) = false
  /\ tcp_err (sock2ibuf new_tcp (mkRead [] (Some (OtherError "EOF")))) = None.
Proof. split; reflexivity. Qed.

(** ** The evaluation step *)

(** C10: in every state other than [waitingOnReply], [checkState] returns
    the current response and state and leaves the worker (response, state,
    buffer and all other fields) as it was. *)
Theorem checkState_frame (t : tcp) (now now' : Time) :
  tcp_state t <> waitingOnReply ->
  checkState t now now' = (t, (tcp_response t, tcp_state t)).
Proof.
  intros H. unfold checkState.
  destruct (tcp_state t =? waitingOnReply) eqn:E; [|reflexivity].
  apply Z.eqb_eq in E. contradiction.
Qed.

Lemma checkState_frame_witness :
  checkState new_tcp 7 8 = (new_tcp, (tcp_response new_tcp, idle))
  /\ checkState (set_state responseFormed new_tcp) 7 8
     = (set_state responseFormed new_tcp,
        (tcp_response new_tcp, responseFormed)).
Proof.
  split.
  - apply (checkState_frame new_tcp 7 8). discriminate.
  - apply (checkState_frame (set_state responseFormed new_tcp) 7 8).
    discriminate.
Defined.

(** C4: in [waitingOnReply], once the time elapsed since the request
    exceeds the command's timeout, [checkState] forms the response with
    [ErrTimeout] and the whole buffer and moves to [responseFormed]; no
    pattern is consulted: the result is the same whatever the command's
    patterns and whatever the buffer holds. *)
Theorem checkState_timeout (t : tcp) (now now' : Time) :
  tcp_state t = waitingOnReply ->
  Sub now (tcp_reqTime t) > cmd_Timeout (req_Command (tcp_request t)) ->
  let resp := mkResponse (tcp_ibuf t) (Some ErrTimeout)
                         (Since now' (tcp_reqTime t)) in
  checkState t now now'
  = (set_state responseFormed (set_response resp t), (resp, responseFormed)).
Proof.
  intros Hs Hd resp. unfold checkState. rewrite Hs.
  change (waitingOnReply =? waitingOnReply) with true. cbv iota.
  cbn [set_response_Error set_response tcp_request tcp_reqTime tcp_ibuf].
  apply Z.gt_lt, Z.gtb_lt in Hd. rewrite Hd.
  reflexivity.
Qed.

(** The worker waits on [testCommand], issued at time 0; eleven seconds
    later the buffer holds a text both patterns match, and the evaluation
    still answers with the timeout and the whole buffer. *)
Lemma checkState_timeout_witness :
  let buf := bytes_of_string ("123" ++ String "010" ("abc" ++ String "010" "")) in
  Regexp.Match (cmd_Error testCommand) buf = true
  /\ Regexp.Match (cmd_Response testCommand) buf = true
  /\ snd (checkState (waitingOn testCommand buf) (11 * second) (11 * second))
     = (mkResponse buf (Some ErrTimeout) (11 * second), responseFormed).
Proof.
  cbv zeta. split; [reflexivity|]. split; [reflexivity|].
  rewrite (@checkState_timeout
             (waitingOn testCommand
                (bytes_of_string
                   ("123" ++ String "010" ("abc" ++ String "010" ""))))
             (11 * second) (11 * second)).
  - reflexivity.
  - reflexivity.
  - reflexivity.
Defined.

Lemma Match_false (r : Regexp.Regexp) (b : bytes) :
  Regexp.Match r b = false <-> ~ matches_anywhere r b.
Proof.
  unfold matches_anywhere. rewrite <- RegexpFacts.Match_true.
  destruct (Regexp.Match r b); split; intros H.
  - discriminate.
  - exfalso. now apply H.
  - discriminate.
  - reflexivity.
Qed.

(** C3: in [waitingOnReply] and not past the deadline, a buffer that the
    failure pattern matches anywhere yields [ErrMatch] with the whole
    buffer, also when the success pattern matches; otherwise a buffer that
    the success pattern matches anywhere yields a nil error with exactly
    the leftmost stretch of the buffer that the success pattern matches.
    The state becomes [responseFormed] and the buffer is left as it was. *)
Theorem checkState_match (t : tcp) (now now' : Time) :
  tcp_state t = waitingOnReply ->
  Sub now (tcp_reqTime t) <= cmd_Timeout (req_Command (tcp_request t)) ->
  let cmd := req_Command (tcp_request t) in
  let buf := tcp_ibuf t in
  let d := Since now' (tcp_reqTime t) in
  (matches_anywhere (cmd_Error cmd) buf ->
   let resp := mkResponse buf (Some ErrMatch) d in
   checkState t now now'
   = (set_state responseFormed (set_response resp t), (resp, responseFormed)))
  /\ (~ matches_anywhere (cmd_Error cmd) buf ->
      matches_anywhere (cmd_Response cmd) buf ->
      let resp := mkResponse (Regexp.Find (cmd_Response cmd) buf) None d in
      checkState t now now'
      = (set_state responseFormed (set_response resp t),
         (resp, responseFormed))
      /\ tcp_ibuf (fst (checkState t now now')) = buf
      /\ exists pre,
          Regexp.match_at (cmd_Response cmd) buf pre (resp_Bytes resp)
          /\ forall pre' m', Regexp.match_at (cmd_Response cmd) buf pre' m' ->
                             (length pre <= length pre')%nat).
Proof.
  intros Hs Hd cmd buf d.
  assert (Hd' : (Sub now (tcp_reqTime t) >? cmd_Timeout cmd) = false).
  { apply Z.leb_le in Hd. rewrite Z.gtb_ltb, Z.ltb_antisym.
    fold cmd in Hd. now rewrite Hd. }
  split.
  - intros He resp. apply RegexpFacts.Match_true in He.
    unfold checkState. rewrite Hs.
    change (waitingOnReply =? waitingOnReply) with true. cbv iota.
    cbn [set_response_Error set_response tcp_request tcp_reqTime tcp_ibuf].
    fold cmd buf. rewrite Hd', He. reflexivity.
  - intros He Hr resp. apply Match_false in He.
    pose proof Hr as Hr'. apply RegexpFacts.Match_true in Hr.
    assert (Heq : checkState t now now'
                  = (set_state responseFormed (set_response resp t),
                     (resp, responseFormed))).
    { unfold checkState. rewrite Hs.
      change (waitingOnReply =? waitingOnReply) with true. cbv iota.
      cbn [set_response_Error set_response tcp_request tcp_reqTime tcp_ibuf].
      fold cmd buf. rewrite Hd', He, Hr. reflexivity. }
    split; [exact Heq|]. split; [now rewrite Heq|].
    apply RegexpFacts.Find_Match. exact Hr.
Qed.

(** The two runs of [TestTcp_checkState] that match, on buffers with noise
    around the reply: the failure reply wins with the whole buffer, and the
    success reply comes back as the matched stretch alone. *)
Lemma checkState_match_witness :
  let nl := String "010" "" in
  let bad := bytes_of_string ("xy1234567890" ++ nl ++ "abcdefg" ++ nl) in
  let good := bytes_of_string ("--abcdefg" ++ nl ++ "zz") in
  snd (checkState (waitingOn testCommand bad) second (2 * second))
  = (mkResponse bad (Some ErrMatch) (2 * second), responseFormed)
  /\ snd (checkState (waitingOn testCommand good) second (2 * second))
     = (mkResponse (bytes_of_string ("abcdefg" ++ nl)) None (2 * second),
        responseFormed)
  /\ tcp_ibuf (fst (checkState (waitingOn testCommand good) second
                               (2 * second))) = good.
Proof.
  cbv zeta. split.
  - pose proof (@checkState_match
                  (waitingOn testCommand
                     (bytes_of_string
                        ("xy1234567890" ++ String "010" ""
                           ++ "abcdefg" ++ String "010" "")))
                  second (2 * second) eq_refl) as H.
    destruct H as [H _]; [discriminate|].
    cbv zeta in H. rewrite H; [reflexivity|].
    apply RegexpFacts.Match_true. reflexivity.
  - pose proof (@checkState_match
                  (waitingOn testCommand
                     (bytes_of_string ("--abcdefg" ++ String "010" "" ++ "zz")))
                  second (2 * second) eq_refl) as H.
    destruct H as [_ H]; [discriminate|].
    cbv zeta in H. destruct H as (H1 & H2 & _).
    + apply Match_false. reflexivity.
    + apply RegexpFacts.Match_true. reflexivity.
    + split; [rewrite H1; reflexivity | exact H2].
Defined.

(** The table of [TestTcp_checkState], with the request issued at time 0:
    an empty buffer before the deadline leaves the worker waiting with the
    unformed marker; ten seconds on, the timeout; the failure reply; the
    success reply. *)
Example TestTcp_checkState :
  let nl := String "010" "" in
  snd (checkState (waitingOn testCommand []) 0 0)
  = (mkResponse [] (Some errUnformedResponse) 0, waitingOnReply)
  /\ snd (checkState (waitingOn testCommand []) (10 * second) (10 * second))
     = (mkResponse [] (Some ErrTimeout) (10 * second), responseFormed)
  /\ snd (checkState (waitingOn testCommand
                        (bytes_of_string ("1234567890" ++ nl))) 0 0)
     = (mkResponse (bytes_of_string ("1234567890" ++ nl)) (Some ErrMatch) 0,
        responseFormed)
  /\ snd (checkState (waitingOn testCommand
                        (bytes_of_string ("abcdefg" ++ nl))) 0 0)
     = (mkResponse (bytes_of_string ("abcdefg" ++ nl)) None 0,
        responseFormed).
Proof. cbv zeta. repeat split. Qed.

(** ** Incoming requests *)

(** C5: a request that arrives while the state is not [idle] is answered at
    once on [t.sresp], with [ErrBusy] when the worker holds no error and
    with the error it holds otherwise; the worker itself (state, buffer,
    request in flight and every other field) is left as it was, and nothing
    is written to the connection. *)
Theorem handleIncoming_busy (t : tcp) (r : request) (wr : option error)
        (now : Time) :
  tcp_state t <> idle ->
  handleIncoming t r wr now
  = (t, [SrespSend (mkResponse []
                      (Some (match tcp_err t with
                             | Some e => e
                             | None => ErrBusy
                             end)) 0)]).
Proof.
  intros H. unfold handleIncoming.
  destruct (tcp_state t =? idle) eqn:E.
  - apply Z.eqb_eq in E. contradiction.
  - cbn. destruct (tcp_err t); reflexivity.
Qed.

(** The runs of [TestTcp_handleIncoming] in state [idle - 1], and a request
    that arrives while another one is awaited. *)
Lemma handleIncoming_busy_witness :
  let t := set_state (idle - 1) new_tcp in
  let r := mkRequest pingOk (bytes_of_string (cmd_Prototype pingOk)) in
  handleIncoming t r None 5 = (t, [SrespSend (mkResponse [] (Some ErrBusy) 0)])
  /\ handleIncoming (set_err (Some errUnformedResponse) t) r None 5
     = (set_err (Some errUnformedResponse) t,
        [SrespSend (mkResponse [] (Some errUnformedResponse) 0)])
  /\ handleIncoming (waitingOn testCommand []) r None 5
     = (waitingOn testCommand [],
        [SrespSend (mkResponse [] (Some ErrBusy) 0)]).
Proof.
  cbv zeta. split; [|split].
  - apply (@handleIncoming_busy (set_state (idle - 1) new_tcp)). discriminate.
  - apply (@handleIncoming_busy
             (set_err (Some errUnformedResponse)
                      (set_state (idle - 1) new_tcp))).
    discriminate.
  - apply (@handleIncoming_busy (waitingOn testCommand [])). discriminate.
Defined.

Lemma handleIncoming_idle (t : tcp) (r : request) (wr : option error)
      (now : Time) :
  tcp_state t = idle ->
  handleIncoming t r wr now
  = match wr with
    | Some err =>
        (set_err (Some err) (set_ibuf [] t),
         [ConnWrite (req_bytes r); SrespSend (mkResponse [] (Some err) 0)])
    | None =>
        (set_state waitingOnReply
           (set_reqTime now (set_request r (set_ibuf [] t))),
         [ConnWrite (req_bytes r)])
    end.
Proof.
  intros H. unfold handleIncoming. rewrite H.
  change (idle =? idle) with true. reflexivity.
Qed.

Lemma runner_step_Tick_ibuf (t : tcp) (rd : readResult) (now now' : Time)
      (ready : bool) :
  tcp_ibuf (fst (runner_step t (Tick rd) now now' ready))
  = tcp_ibuf t ++ read_bytes rd.
Proof.
  unfold runner_step.
  assert (H : tcp_ibuf (fst (checkState (sock2ibuf t rd) now now'))
              = tcp_ibuf t ++ read_bytes rd).
  { rewrite <- sock2ibuf_ibuf. generalize (sock2ibuf t rd). intros u.
    unfold checkState.
    repeat match goal with
           | |- context [if ?b then _ else _] => destruct b
           end; reflexivity. }
  destruct (tcp_state _ =? responseFormed); [destruct ready|]; exact H.
Qed.

Lemma polls_ibuf (ticks : list (readResult * (Time * Time) * bool)) :
  forall t,
    tcp_ibuf (polls t ticks)
    = tcp_ibuf t ++ concat (map (fun x => read_bytes (fst (fst x))) ticks).
Proof.
  induction ticks as [|[[rd [now now']] ready] ticks IH]; intros t; simpl.
  - now rewrite app_nil_r.
  - rewrite IH, runner_step_Tick_ibuf. now rewrite app_assoc.
Qed.

(** C8: a request that arrives while the worker is idle empties the buffer
    first: whatever the buffer [old] held before, the outcome of
    [handleIncoming] is that of a worker whose buffer was empty, the buffer
    is empty afterwards whether the write succeeds or fails, and the write
    is the first thing put on the connection.  So the buffer that the
    evaluations of the cycle classify holds exactly the bytes read by the
    polls of the cycle. *)
Theorem handleIncoming_truncates (t : tcp) (r : request) (now : Time)
        (old : bytes) :
  tcp_state t = idle ->
  (forall wr,
      handleIncoming (set_ibuf old t) r wr now
      = handleIncoming (set_ibuf [] t) r wr now
      /\ tcp_ibuf (fst (handleIncoming (set_ibuf old t) r wr now)) = []
      /\ hd_error (snd (handleIncoming (set_ibuf old t) r wr now))
         = Some (ConnWrite (req_bytes r)))
  /\ forall ticks,
      tcp_ibuf (polls (fst (handleIncoming (set_ibuf old t) r None now)) ticks)
      = concat (map (fun x => read_bytes (fst (fst x))) ticks).
Proof.
  intros H. split.
  - intros wr.
    rewrite !handleIncoming_idle by exact H.
    destruct wr; repeat split.
  - intros ticks. rewrite polls_ibuf.
    rewrite handleIncoming_idle by exact H. reflexivity.
Qed.

(** An idle worker whose buffer still holds a stale failure reply accepts
    [testCommand]; the device then answers with a success reply in two
    reads, and the evaluation sees that reply alone. *)
Lemma handleIncoming_truncates_witness :
  let nl := String "010" "" in
  let stale := bytes_of_string ("999" ++ nl) in
  let r := mkRequest testCommand (bytes_of_string "test") in
  let ticks := [(mkRead (bytes_of_string "abc") None, (1, 1), false);
                (mkRead (bytes_of_string ("def" ++ nl))
                        (Some (NetError true "i/o timeout")), (2, 2), false)] in
  let t1 := fst (handleIncoming (set_ibuf stale new_tcp) r None 0) in
  tcp_ibuf t1 = []
  /\ tcp_ibuf (polls t1 ticks) = bytes_of_string ("abcdef" ++ nl)
  /\ tcp_response (polls t1 ticks)
     = mkResponse (bytes_of_string ("abcdef" ++ nl)) None 2.
Proof.
  cbv zeta.
  pose proof (@handleIncoming_truncates new_tcp
                (mkRequest testCommand (bytes_of_string "test")) 0
                (bytes_of_string ("999" ++ String "010" "")) eq_refl)
    as [H1 H2].
  split; [apply (H1 None)|]. split; [|reflexivity].
  rewrite H2. reflexivity.
Defined.

(** ** Formatting a command *)

Section Formatting.
Variable Sprintf : string -> list value -> string.

(** C7: when the formatted text carries the marker [%!] that the formatter
    leaves for a verb it could not satisfy, [Bytes] returns that text
    together with [ErrBytesArgs]. *)
Theorem Bytes_args (c : Command) (v : list value) :
  Contains (Sprintf (cmd_Prototype c) v) "%!" = true ->
  Bytes Sprintf c v
  = (bytes_of_string (Sprintf (cmd_Prototype c) v), Some ErrBytesArgs).
Proof. intros H. unfold Bytes. now rewrite H. Qed.

(** C2, as the code has it: when the formatted text carries no marker
    [%!], [Bytes] returns it with a nil error if the validation pattern
    matches somewhere in it, which is what [MatchString] reports and holds
    in particular when the pattern matches the text in its entirety, and
    with [ErrBytesFormat] if the pattern matches nowhere in it. *)
Theorem Bytes_validated (c : Command) (v : list value) :
  Contains (Sprintf (cmd_Prototype c) v) "%!" = false ->
  let str := Sprintf (cmd_Prototype c) v in
  (Regexp.matches (cmd_CommandRegexp c) (bytes_of_string str) ->
   Bytes Sprintf c v = (bytes_of_string str, None))
  /\ (matches_anywhere (cmd_CommandRegexp c) (bytes_of_string str) ->
      Bytes Sprintf c v = (bytes_of_string str, None))
  /\ (~ matches_anywhere (cmd_CommandRegexp c) (bytes_of_string str) ->
      Bytes Sprintf c v = (bytes_of_string str, Some ErrBytesFormat)).
Proof.
  intros H str. subst str.
  set (str := Sprintf (cmd_Prototype c) v) in *.
  assert (Hany : matches_anywhere (cmd_CommandRegexp c) (bytes_of_string str)
                 -> Bytes Sprintf c v = (bytes_of_string str, None)).
  { intros Hm. apply RegexpFacts.Match_true in Hm.
    unfold Bytes, Regexp.MatchString. fold str. now rewrite H, Hm. }
  split; [|split].
  - intros Hm. apply Hany. apply RegexpFacts.Match_true.
    now apply RegexpFacts.matches_Match.
  - exact Hany.
  - intros Hm. apply Match_false in Hm.
    unfold Bytes, Regexp.MatchString. fold str. now rewrite H, Hm.
Qed.

(** ** Control *)

(** C6: on an engine that is not alive, [Control] returns the response that
    carries [ErrNotConnected]; on an alive engine, when [Bytes] returns a
    non-nil error, it returns the response that carries that error.  In
    both cases nothing is sent to the worker. *)
Theorem Control_fails_fast (t : tcp) (cmd : Command) (args : list value)
        (reply : Response) :
  (tcp_alive t = false ->
   Control Sprintf t cmd args reply
   = (Response_Error (Some ErrNotConnected), []))
  /\ (tcp_alive t = true ->
      forall e, snd (Bytes Sprintf cmd args) = Some e ->
                resp_Error (fst (Control Sprintf t cmd args reply)) = Some e
                /\ snd (Control Sprintf t cmd args reply) = []).
Proof.
  unfold Control. split.
  - intros ->. reflexivity.
  - intros -> e He. cbn [negb].
    destruct (Bytes Sprintf cmd args) as [b err]. simpl in He. subst err.
    split; reflexivity.
Qed.

(** C9: on an alive engine, when [Bytes] returns a non-nil error, the
    response of [Control] carries that error and nothing else: its bytes
    are empty, although [Bytes] returned the formatted text, and its
    duration is zero. *)
Theorem Control_format_error (t : tcp) (cmd : Command) (args : list value)
        (reply : Response) (e : error) :
  tcp_alive t = true ->
  snd (Bytes Sprintf cmd args) = Some e ->
  fst (Control Sprintf t cmd args reply)
  = {| resp_Bytes := []; resp_Error := Some e; resp_Duration := 0 |}.
Proof.
  intros Ha He. unfold Control. rewrite Ha. cbn [negb].
  destruct (Bytes Sprintf cmd args) as [b err]. simpl in He. subst err.
  reflexivity.
Qed.

(** Otherwise the request, with the formatted bytes, goes to the worker and
    its reply is the result. *)
Lemma Control_sends (t : tcp) (cmd : Command) (args : list value)
      (reply : Response) :
  tcp_alive t = true ->
  snd (Bytes Sprintf cmd args) = None ->
  Control Sprintf t cmd args reply
  = (reply, [SreqSend (mkRequest cmd (fst (Bytes Sprintf cmd args)))]).
Proof.
  intros Ha He. unfold Control. rewrite Ha. cbn [negb].
  destruct (Bytes Sprintf cmd args) as [b err]. simpl in He. subst err.
  reflexivity.
Qed.

End Formatting.

(** ** The formatter of the fragment and its markers *)

Module FmtFacts.

Local Open Scope string_scope.

Lemma HasPrefix_app (p s u : string) :
  HasPrefix s p = true -> HasPrefix (s ++ u) p = true.
Proof.
  revert s. induction p as [|a p IH]; intros s H; [reflexivity|].
  destruct s as [|b s]; [discriminate|]. simpl in *.
  apply andb_true_iff in H. destruct H as [-> H]. now apply IH.
Qed.

Lemma Contains_cons (c : ascii) (s sub : string) :
  Contains s sub = true -> Contains (String c s) sub = true.
Proof. intros H. cbn [Contains]. rewrite H. now destruct (HasPrefix _ sub). Qed.

Lemma Contains_app_r (s u sub : string) :
  Contains u sub = true -> Contains (s ++ u) sub = true.
Proof.
  intros H. induction s as [|c s IH]; [exact H|].
  change (String c s ++ u) with (String c (s ++ u)).
  now apply Contains_cons.
Qed.

Lemma badVerb_marker (verb : ascii) (a : value) (u : string) :
  Contains (Fmt.badVerb verb a ++ u) "%!" = true.
Proof. reflexivity. Qed.

Lemma printArg_marker (a : value) (verb : ascii) (u : string) :
  Fmt.verbOk a verb = false ->
  Contains (Fmt.printArg a verb ++ u) "%!" = true.
Proof.
  intros H. destruct a; unfold Fmt.printArg; simpl in H; rewrite H;
    apply badVerb_marker.
Qed.

Lemma extra_marker (a : list value) :
  a <> [] -> Contains (Fmt.extra a) "%!" = true.
Proof. destruct a; [congruence | reflexivity]. Qed.

(** Operands that do not fit the verbs leave a marker in the text. *)
Lemma mismatch_marker (n : nat) :
  forall format a,
    (String.length format <= n)%nat ->
    Fmt.mismatch format a = true ->
    Contains (Fmt.Sprintf format a) "%!" = true.
Proof.
  induction n as [|n IH]; intros format a Hlen Hm.
  - destruct format; [|simpl in Hlen; lia].
    simpl in *. apply extra_marker. destruct a; congruence.
  - destruct format as [|c rest].
    + simpl in *. apply extra_marker. destruct a; congruence.
    + simpl in Hlen, Hm. cbn [Fmt.Sprintf].
      destruct (Ascii.eqb c "%").
      * destruct rest as [|verb rest']; [reflexivity|].
        simpl in Hlen.
        destruct (Ascii.eqb verb "%").
        -- apply Contains_cons. apply IH; [lia | exact Hm].
        -- destruct a as [|x a']; [reflexivity|].
           destruct (Fmt.verbOk x verb) eqn:Hv.
           ++ apply Contains_app_r. apply IH; [lia | exact Hm].
           ++ now apply printArg_marker.
      * apply Contains_cons. apply IH; [lia | exact Hm].
Qed.

(** With the formatter of the fragment, operands that do not fit the verbs
    (too few, too many, of the wrong type or in the wrong order) make
    [Bytes] return the text with [ErrBytesArgs]. *)
Lemma Bytes_mismatch (c : Command) (v : list value) :
  Fmt.mismatch (cmd_Prototype c) v = true ->
  Bytes Fmt.Sprintf c v
  = (bytes_of_string (Fmt.Sprintf (cmd_Prototype c) v), Some ErrBytesArgs).
Proof.
  intros H.
  apply (mismatch_marker (n := String.length (cmd_Prototype c))) in H;
    [|apply Nat.le_refl].
  unfold Bytes. now rewrite H.
Qed.

End FmtFacts.

(** ** Runs with the formatter of the fragment *)

Local Open Scope string_scope.

(** The example of the specification: prototype [%d] with the operand
    ["hello"], and [pingWrong] without its operand. *)
Lemma Bytes_args_witness :
  Bytes Fmt.Sprintf setCommand [VString "hello"]
  = (bytes_of_string "%!d(string=hello)", Some ErrBytesArgs)
  /\ Bytes Fmt.Sprintf pingWrong []
     = (bytes_of_string ("Req Arg, No Arg %!d(MISSING)" ++ String "013" ""),
        Some ErrBytesArgs).
Proof.
  split.
  - apply (@Bytes_args Fmt.Sprintf setCommand [VString "hello"]). reflexivity.
  - apply (@Bytes_args Fmt.Sprintf pingWrong []). reflexivity.
Defined.

(** A text can hold [%!] without any operand amiss: the prototype [%%!]
    prints as [%!], and [Bytes] answers [ErrBytesArgs] all the same. *)
Example Bytes_percent_bang :
  let c := mkCommand "" 0 "%%!" (Regexp.Star Regexp.dot) Regexp.Eps
                     Regexp.never "" in
  Fmt.mismatch (cmd_Prototype c) [] = false
  /\ Bytes Fmt.Sprintf c [] = (bytes_of_string "%!", Some ErrBytesArgs).
Proof. split; reflexivity. Qed.

(** [testCommand] and [setCommand] format to texts their validation
    patterns match; [setCommand] with a negative operand formats to [-5],
    in which [[0-9]+] still finds a match; [pingOk]'s pattern finds none in
    the text of [testCommand]'s prototype. *)
Lemma Bytes_validated_witness :
  Bytes Fmt.Sprintf testCommand [] = (bytes_of_string "test", None)
  /\ Bytes Fmt.Sprintf setCommand [VInt (-5)] = (bytes_of_string "-5", None)
  /\ Bytes Fmt.Sprintf
       (mkCommand "" 0 "test" (Regexp.lit "013") Regexp.Eps Regexp.never "") []
     = (bytes_of_string "test", Some ErrBytesFormat).
Proof.
  split; [|split].
  - pose proof (@Bytes_validated Fmt.Sprintf testCommand [] eq_refl) as H.
    cbv zeta in H. destruct H as (H & _ & _). apply H.
    apply RegexpFacts.full_match_spec. reflexivity.
  - pose proof (@Bytes_validated Fmt.Sprintf setCommand [VInt (-5)] eq_refl)
      as H.
    cbv zeta in H. destruct H as (_ & H & _). apply H.
    apply RegexpFacts.Match_true. reflexivity.
  - pose proof (@Bytes_validated Fmt.Sprintf
                  (mkCommand "" 0 "test" (Regexp.lit "013") Regexp.Eps
                             Regexp.never "") [] eq_refl) as H.
    cbv zeta in H. destruct H as (_ & _ & H). apply H.
    apply Match_false. reflexivity.
Defined.

(** C2 as stated fails: [paddedCommand] formats to [xtestx] without any
    marker; the pattern [test] does not match that text in its entirety,
    yet [Bytes] returns it with a nil error and not with [ErrBytesFormat]. *)
Lemma Bytes_full_match_counterexample :
  ~ (forall (c : Command) (v : list value),
        let str := Fmt.Sprintf (cmd_Prototype c) v in
        Contains str "%!" = false ->
        (Regexp.matches (cmd_CommandRegexp c) (bytes_of_string str) ->
         Bytes Fmt.Sprintf c v = (bytes_of_string str, None))
        /\ (~ Regexp.matches (cmd_CommandRegexp c) (bytes_of_string str) ->
            snd (Bytes Fmt.Sprintf c v) = Some ErrBytesFormat)).
Proof.
  intros H.
  destruct (H paddedCommand [] eq_refl) as [_ H2].
  assert (Hn : ~ Regexp.matches (cmd_CommandRegexp paddedCommand)
                 (bytes_of_string (Fmt.Sprintf (cmd_Prototype paddedCommand) []))).
  { intros Hm. apply RegexpFacts.full_match_spec in Hm. discriminate Hm. }
  specialize (H2 Hn). discriminate H2.
Qed.

(** [Control] on a worker that was never started, and on an alive one with
    [pingWrong], as in [TestTcp_Control]: no request leaves the caller. *)
Lemma Control_fails_fast_witness :
  Control Fmt.Sprintf new_tcp pingOk [] (mkResponse [] None 0)
  = (mkResponse [] (Some ErrNotConnected) 0, [])
  /\ (resp_Error
        (fst (Control Fmt.Sprintf
                (mkTcp true "" [] (tcp_request new_tcp)
                       (tcp_response new_tcp) 0 idle None)
                pingWrong [] (mkResponse [] None 0)))
      = Some ErrBytesArgs
      /\ snd (Control Fmt.Sprintf
                (mkTcp true "" [] (tcp_request new_tcp)
                       (tcp_response new_tcp) 0 idle None)
                pingWrong [] (mkResponse [] None 0)) = []).
Proof.
  split.
  - apply (@Control_fails_fast Fmt.Sprintf new_tcp pingOk []
             (mkResponse [] None 0)).
    reflexivity.
  - destruct (@Control_fails_fast Fmt.Sprintf
                (mkTcp true "" [] (tcp_request new_tcp)
                       (tcp_response new_tcp) 0 idle None)
                pingWrong [] (mkResponse [] None 0)) as [_ H].
    apply (H eq_refl ErrBytesArgs). reflexivity.
Defined.

(** The alive engine and [setCommand] with a text operand: [Bytes] returns
    the malformed text, the response of [Control] holds no bytes. *)
Lemma Control_format_error_witness :
  fst (Bytes Fmt.Sprintf setCommand [VString "hello"])
  = bytes_of_string "%!d(string=hello)"
  /\ fst (Control Fmt.Sprintf
            (mkTcp true "" [] (tcp_request new_tcp)
                   (tcp_response new_tcp) 0 idle None)
            setCommand [VString "hello"] (mkResponse [] None 0))
     = mkResponse [] (Some ErrBytesArgs) 0.
Proof.
  split; [reflexivity|].
  apply (@Control_format_error Fmt.Sprintf
           (mkTcp true "" [] (tcp_request new_tcp)
                  (tcp_response new_tcp) 0 idle None)
           setCommand [VString "hello"] (mkResponse [] None 0) ErrBytesArgs).
  - reflexivity.
  - reflexivity.
Defined.

(** * Further properties of the worker and of the engine *)

Local Close Scope string_scope.

(** ** The evaluation step, in all its cases *)

Lemma sock2ibuf_eq (t : tcp) (rd : readResult) :
  sock2ibuf t rd = set_err None (set_ibuf (tcp_ibuf t ++ read_bytes rd) t).
Proof.
  unfold sock2ibuf. destruct (isNetTimeout _), (read_err rd); reflexivity.
Qed.

Lemma checkState_other (t : tcp) (now now' : Time) :
  tcp_state t <> waitingOnReply ->
  checkState t now now' = (t, (tcp_response t, tcp_state t)).
Proof.
  intros H. unfold checkState.
  destruct (tcp_state t =? waitingOnReply) eqn:E; [|reflexivity].
  apply Z.eqb_eq in E. contradiction.
Qed.


(** The worker after [checkState] is the worker before, or the worker with
    the unformed marker, or the worker with a formed response. *)
Lemma checkState_cases (t : tcp) (now now' : Time) :
  let u := set_response_Error (Some errUnformedResponse) t in
  let t' := fst (checkState t now now') in
  snd (checkState t now now') = (tcp_response t', tcp_state t')
  /\ ((tcp_state t <> waitingOnReply /\ t' = t)
      \/ (tcp_state t = waitingOnReply /\ t' = u)
      \/ (tcp_state t = waitingOnReply
          /\ exists e by_, formed_error e /\ t' = alterResp now' e by_ u)).
Proof.
  cbv zeta. unfold checkState.
  destruct (tcp_state t =? waitingOnReply) eqn:E.
  - apply Z.eqb_eq in E.
    destruct (Sub now _ >? _).
    + split; [reflexivity|]. right; right. split; [exact E|].
      eexists _, _. split; [|reflexivity]. unfold formed_error; auto.
    + destruct (Regexp.Match (cmd_Error _) _).
      * split; [reflexivity|]. right; right. split; [exact E|].
        eexists _, _. split; [|reflexivity]. unfold formed_error; auto.
      * destruct (Regexp.Match (cmd_Response _) _).
        -- split; [reflexivity|]. right; right. split; [exact E|].
           eexists _, _. split; [|reflexivity]. unfold formed_error; auto.
        -- split; [reflexivity|]. right; left. now split.
  - apply Z.eqb_neq in E. split; [reflexivity|]. left. now split.
Qed.

(** X1: in [waitingOnReply], not past the deadline and with a buffer that
    neither pattern matches anywhere, [checkState] leaves the worker
    waiting: the state stays [waitingOnReply], the response gets the
    unformed marker as its error and keeps the bytes and the duration it
    had, and nothing else changes. *)
Theorem checkState_waiting (t : tcp) (now now' : Time) :
  tcp_state t = waitingOnReply ->
  Sub now (tcp_reqTime t) <= cmd_Timeout (req_Command (tcp_request t)) ->
  ~ matches_anywhere (cmd_Error (req_Command (tcp_request t))) (tcp_ibuf t) ->
  ~ matches_anywhere (cmd_Response (req_Command (tcp_request t)))
    (tcp_ibuf t) ->
  checkState t now now'
  = (set_response_Error (Some errUnformedResponse) t,
     (mkResponse (resp_Bytes (tcp_response t)) (Some errUnformedResponse)
                 (resp_Duration (tcp_response t)),
      waitingOnReply)).
Proof.
  intros Hs Hd He Hr.
  apply Match_false in He. apply Match_false in Hr.
  assert (Hd' : (Sub now (tcp_reqTime t)
                 >? cmd_Timeout (req_Command (tcp_request t))) = false).
  { apply Z.leb_le in Hd. rewrite Z.gtb_ltb, Z.ltb_antisym. now rewrite Hd. }
  unfold checkState. rewrite Hs.
  change (waitingOnReply =? waitingOnReply) with true. cbv iota.
  cbn [set_response_Error set_response tcp_request tcp_reqTime tcp_ibuf
       tcp_response tcp_state].
  rewrite Hd', He, Hr, Hs. reflexivity.
Qed.

(** The worker waits on [testCommand] at exactly its deadline of five
    seconds, with half a reply in the buffer and the response of an
    earlier cycle still in place. *)
Lemma checkState_waiting_witness :
  let old := mkResponse (bytes_of_string "old") None 7 in
  let t := set_response old (waitingOn testCommand (bytes_of_string "abc")) in
  checkState t (5 * second) (5 * second)
  = (set_response_Error (Some errUnformedResponse) t,
     (mkResponse (bytes_of_string "old") (Some errUnformedResponse) 7,
      waitingOnReply)).
Proof.
  cbv zeta.
  apply (@checkState_waiting
           (set_response (mkResponse (bytes_of_string "old") None 7)
                         (waitingOn testCommand (bytes_of_string "abc")))
           (5 * second) (5 * second)).
  - reflexivity.
  - discriminate.
  - apply Match_false. reflexivity.
  - apply Match_false. reflexivity.
Defined.

(** X2: whatever the state and the clock, [checkState] touches only the
    response and the state: the buffer, the request, the time of the
    request, the stored error, the alive flag and the address are as
    before; what it returns are the response and the state of the worker
    afterwards; and the state is the one before, or [responseFormed]
    reached from [waitingOnReply]. *)
Theorem checkState_touches (t : tcp) (now now' : Time) :
  let t' := fst (checkState t now now') in
  tcp_ibuf t' = tcp_ibuf t
  /\ tcp_request t' = tcp_request t
  /\ tcp_reqTime t' = tcp_reqTime t
  /\ tcp_err t' = tcp_err t
  /\ tcp_alive t' = tcp_alive t
  /\ tcp_addr t' = tcp_addr t
  /\ snd (checkState t now now') = (tcp_response t', tcp_state t')
  /\ (tcp_state t' = tcp_state t
      \/ (tcp_state t = waitingOnReply /\ tcp_state t' = responseFormed)).
Proof.
  cbv zeta.
  destruct (checkState_cases t now now') as [Hsnd H]. cbv zeta in Hsnd, H.
  destruct H as [[Hs Ht] | [[Hs Ht] | [Hs (e & by_ & _ & Ht)]]];
    rewrite Ht in *; repeat split; try exact Hsnd; auto.
Qed.

(** ** The loop of the worker *)

Lemma responses_app (a b : list event) :
  responses (a ++ b) = responses a ++ responses b.
Proof.
  induction a as [|[x|x|x] a IH]; simpl; [reflexivity| | |]; now rewrite IH.
Qed.

Lemma written_app (a b : list event) :
  written (a ++ b) = written a ++ written b.
Proof.
  induction a as [|[x|x|x] a IH]; simpl; [reflexivity| | |]; now rewrite IH.
Qed.

Lemma wf_sock2ibuf (t : tcp) (rd : readResult) : wf t -> wf (sock2ibuf t rd).
Proof. rewrite sock2ibuf_eq. exact (fun H => H). Qed.

Lemma wf_checkState (t : tcp) (now now' : Time) :
  wf t -> wf (fst (checkState t now now')).
Proof.
  intros H. destruct (checkState_cases t now now') as [_ Hc].
  cbv zeta in Hc.
  destruct Hc as [[_ ->] | [[Hs ->] | [_ (e & by_ & He & ->)]]].
  - exact H.
  - right; left. exact Hs.
  - right; right. split; [reflexivity | exact He].
Qed.

Lemma handleIncoming_wf (t : tcp) (r : request) (wr : option error)
      (now : Time) :
  wf t ->
  wf (fst (handleIncoming t r wr now))
  /\ forall x, In x (responses (snd (handleIncoming t r wr now))) ->
               immediate x.
Proof.
  intros H. unfold handleIncoming.
  destruct (tcp_state t =? idle) eqn:E; cbn [negb].
  - apply Z.eqb_eq in E. destruct wr as [e|]; cbn.
    + split; [left; exact E|].
      intros x [<- | []]. repeat split. discriminate.
    + split; [right; left; reflexivity|]. intros x [].
  - split; [exact H|]. cbn. intros x [<- | []].
    destruct (tcp_err t); repeat split; discriminate.
Qed.

Lemma runner_step_wf (t : tcp) (w : wake) (now now' : Time) (ready : bool) :
  wf t ->
  wf (fst (runner_step t w now now' ready))
  /\ forall x, In x (responses (snd (runner_step t w now now' ready))) ->
               formed_error (resp_Error x) \/ immediate x.
Proof.
  intros H. unfold runner_step.
  assert (H0 : exists t0 evs,
             match w with
             | Tick rd => (sock2ibuf t rd, [])
             | Incoming r wr tn => handleIncoming t r wr tn
             end = (t0, evs)
             /\ wf t0 /\ forall x, In x (responses evs) -> immediate x).
  { destruct w as [rd | r wr tn].
    - eexists _, _. split; [reflexivity|]. split.
      + now apply wf_sock2ibuf.
      + intros x [].
    - destruct (handleIncoming_wf r wr tn H) as [H1 H2].
      destruct (handleIncoming t r wr tn) as [t0 evs].
      eexists _, _. split; [reflexivity|]. now split. }
  destruct H0 as (t0 & evs & -> & Hwf & Hev).
  apply (wf_checkState now now') in Hwf.
  set (t1 := fst (checkState t0 now now')) in *.
  destruct (tcp_state t1 =? responseFormed) eqn:E.
  - apply Z.eqb_eq in E. destruct ready; cbn [fst snd].
    + split; [left; reflexivity|].
      intros x Hx. rewrite responses_app in Hx. apply in_app_or in Hx.
      destruct Hx as [Hx | [<- | []]]; [right; now apply Hev|].
      left. destruct Hwf as [Hw | [Hw | [_ Hw]]]; [| |exact Hw];
        rewrite E in Hw; discriminate.
    + split; [exact Hwf|]. intros x Hx. right; now apply Hev.
  - cbn [fst snd]. split; [exact Hwf|]. intros x Hx. right; now apply Hev.
Qed.

(** X3: started in one of its three states, with no response pending or one
    that carries an outcome, the loop of the worker stays so whatever wakes
    it; and every response it puts on [t.sresp] either carries an outcome
    formed by [checkState] (nil, [ErrTimeout] or [ErrMatch]), so never the
    unformed marker, or is the immediate answer of [handleIncoming], with
    an error and no bytes. *)
Theorem runner_run_wf (steps : list (wake * (Time * Time) * bool)) :
  forall t, wf t ->
    wf (fst (runner_run t steps))
    /\ forall x, In x (responses (snd (runner_run t steps))) ->
                 formed_error (resp_Error x) \/ immediate x.
Proof.
  induction steps as [|[[w [now now']] ready] steps IH]; intros t H.
  - split; [exact H | intros x []].
  - cbn [runner_run].
    destruct (runner_step_wf w now now' ready H) as [H1 H2].
    destruct (runner_step t w now now' ready) as [t1 e1].
    destruct (IH t1 H1) as [H3 H4].
    destruct (runner_run t1 steps) as [t2 e2].
    cbn [fst snd] in *. split; [exact H3|].
    intros x Hx. rewrite responses_app in Hx. apply in_app_or in Hx.
    destruct Hx; auto.
Qed.

(** A worker started by [Dial] on a fresh engine serves a request for
    [testCommand] whose write succeeds, then reads a reply in two ticks
    while a second request arrives in between. *)
Lemma runner_run_wf_witness :
  let nl := String "010" "" in
  let r := mkRequest testCommand (bytes_of_string "test") in
  let steps :=
    [(Incoming r None 0, (0, 0), true);
     (Tick (mkRead (bytes_of_string "abc") None), (1, 1), true);
     (Incoming r None 2, (2, 2), false);
     (Tick (mkRead (bytes_of_string ("def" ++ nl)) None), (3, 4), true)] in
  responses (snd (runner_run new_tcp steps))
  = [mkResponse [] (Some ErrBusy) 0;
     mkResponse (bytes_of_string ("abcdef" ++ nl)) None 4]
  /\ wf (fst (runner_run new_tcp steps)).
Proof.
  cbv zeta. split; [reflexivity|].
  apply (@runner_run_wf
           [(Incoming (mkRequest testCommand (bytes_of_string "test")) None 0,
             (0, 0), true);
            (Tick (mkRead (bytes_of_string "abc") None), (1, 1), true);
            (Incoming (mkRequest testCommand (bytes_of_string "test")) None 2,
             (2, 2), false);
            (Tick (mkRead (bytes_of_string ("def" ++ String "010" "")) None),
             (3, 4), true)]
           new_tcp).
  left. reflexivity.
Defined.

Lemma runner_step_formed (t : tcp) (rd : readResult) (now now' : Time)
      (ready : bool) :
  tcp_state t = responseFormed ->
  runner_step t (Tick rd) now now' ready
  = if ready
    then (set_state idle (sock2ibuf t rd), [SrespSend (tcp_response t)])
    else (sock2ibuf t rd, []).
Proof.
  intros H. unfold runner_step.
  rewrite checkState_other
    by (rewrite sock2ibuf_state, H; discriminate).
  cbn [fst]. rewrite sock2ibuf_state, H.
  change (responseFormed =? responseFormed) with true. cbv iota.
  rewrite sock2ibuf_eq. reflexivity.
Qed.

(** X4: a formed response that the caller is not yet ready to take stays
    as it is through any number of ticks, and the first tick at which the
    caller is ready hands over that very response and brings the worker
    back to [idle]; the ticks before put nothing on [t.sresp]. *)
Theorem handover_retried (t : tcp) (waits : list tick) (last : tick) :
  tcp_state t = responseFormed ->
  let notready := map (fun k : tick => (Tick (fst k), snd k, false)) waits in
  let steps := notready ++ [(Tick (fst last), snd last, true)] in
  responses (snd (runner_run t notready)) = []
  /\ tcp_response (fst (runner_run t notready)) = tcp_response t
  /\ tcp_state (fst (runner_run t notready)) = responseFormed
  /\ responses (snd (runner_run t steps)) = [tcp_response t]
  /\ tcp_state (fst (runner_run t steps)) = idle.
Proof.
  intros Hs. cbv zeta. revert t Hs.
  induction waits as [|[rd [now now']] waits IH]; intros t Hs.
  - cbn [map app runner_run fst snd].
    destruct last as [rd [now now']]. cbn [fst snd].
    rewrite (@runner_step_formed t rd now now' true Hs).
    repeat split; try reflexivity. exact Hs.
  - cbn [map app runner_run fst snd].
    rewrite (@runner_step_formed t rd now now' false Hs).
    assert (Hs' : tcp_state (sock2ibuf t rd) = responseFormed)
      by now rewrite sock2ibuf_state.
    destruct (IH _ Hs') as (H1 & H2 & H3 & H4 & H5).
    destruct (runner_run (sock2ibuf t rd) (map _ waits)) as [ta ea].
    destruct (runner_run (sock2ibuf t rd) (map _ waits ++ _)) as [tb eb].
    cbn [fst snd app] in *.
    rewrite sock2ibuf_eq in H2, H4. cbn in H2, H4.
    repeat split; assumption.
Qed.

(** A response with the timeout waits through two ticks for its caller. *)
Lemma handover_retried_witness :
  let resp := mkResponse (bytes_of_string "abc") (Some ErrTimeout) 9 in
  let t := set_state responseFormed (set_response resp new_tcp) in
  let waits := [(mkRead (bytes_of_string "x") None, (1, 1));
                (mkRead [] (Some (NetError true "i/o timeout")), (2, 2))] in
  let last := (mkRead (bytes_of_string "y") None, (3, 3)) in
  responses
    (snd (runner_run t
            (map (fun k : tick => (Tick (fst k), snd k, false)) waits
               ++ [(Tick (fst last), snd last, true)])))
  = [resp].
Proof.
  cbv zeta.
  apply (@handover_retried
           (set_state responseFormed
              (set_response
                 (mkResponse (bytes_of_string "abc") (Some ErrTimeout) 9)
                 new_tcp))
           [(mkRead (bytes_of_string "x") None, (1, 1));
            (mkRead [] (Some (NetError true "i/o timeout")), (2, 2))]
           (mkRead (bytes_of_string "y") None, (3, 3)) eq_refl).
Defined.




(** ** One request, from the engine to the worker and back *)

Lemma checkState_classify (t : tcp) (now now' : Time) :
  tcp_state t = waitingOnReply ->
  let u := set_response_Error (Some errUnformedResponse) t in
  fst (checkState t now now')
  = match classify (req_Command (tcp_request t)) (tcp_ibuf t)
                   (Sub now (tcp_reqTime t)) with
    | Some (e, by_) => alterResp now' e by_ u
    | None => u
    end.
Proof.
  intros Hs. cbv zeta. unfold checkState, classify. rewrite Hs.
  change (waitingOnReply =? waitingOnReply) with true. cbv iota.
  cbn [set_response_Error set_response tcp_request tcp_reqTime tcp_ibuf].
  destruct (Sub now _ >? _); [reflexivity|].
  destruct (Regexp.Match (cmd_Error _) _); [reflexivity|].
  destruct (Regexp.Match (cmd_Response _) _); reflexivity.
Qed.

Lemma classify_outcome (cmd : Command) (buf : bytes) (el d : Duration)
      (e : option error) (by_ : bytes) :
  classify cmd buf el = Some (e, by_) ->
  outcome_of cmd buf (mkResponse by_ e d).
Proof.
  unfold classify, outcome_of. cbn [resp_Error resp_Bytes].
  destruct (el >? _).
  - intros H; inversion H; subst. left. now split.
  - destruct (Regexp.Match (cmd_Error cmd) buf) eqn:He.
    + intros H; inversion H; subst. right; left.
      repeat split. now apply RegexpFacts.Match_true.
    + destruct (Regexp.Match (cmd_Response cmd) buf) eqn:Hr; [|discriminate].
      intros H; inversion H; subst. right; right.
      split; [reflexivity|]. split; [reflexivity|].
      split; [now apply Match_false|].
      destruct (RegexpFacts.Find_Match _ _ Hr) as (pre & (post & Hb & Hm) & _).
      split; [exact Hm|]. now exists pre, post.
Qed.

Lemma classify_deadline (cmd : Command) (buf : bytes) (el : Duration) :
  el > cmd_Timeout cmd -> classify cmd buf el <> None.
Proof.
  intros H. unfold classify. apply Z.gt_lt, Z.gtb_lt in H. rewrite H.
  discriminate.
Qed.

Lemma runner_step_waiting (t : tcp) (rd : readResult) (now now' : Time) :
  tcp_state t = waitingOnReply ->
  let u := set_response_Error (Some errUnformedResponse) (sock2ibuf t rd) in
  runner_step t (Tick rd) now now' true
  = match classify (req_Command (tcp_request t))
                   (tcp_ibuf t ++ read_bytes rd)
                   (Sub now (tcp_reqTime t)) with
    | Some (e, by_) =>
        (set_state idle (alterResp now' e by_ u),
         [SrespSend (mkResponse by_ e (Since now' (tcp_reqTime t)))])
    | None => (u, [])
    end.
Proof.
  intros Hs. cbv zeta. unfold runner_step.
  rewrite checkState_classify by (now rewrite sock2ibuf_state).
  rewrite sock2ibuf_eq.
  cbn [set_err set_ibuf tcp_request tcp_ibuf tcp_reqTime].
  destruct (classify _ _ _) as [[e by_]|].
  - reflexivity.
  - cbn [fst set_response_Error set_response set_err set_ibuf tcp_state].
    rewrite Hs. reflexivity.
Qed.

Lemma received_cons (rd : readResult) (c : Time * Time) (ticks : list tick) :
  received ((rd, c) :: ticks) = read_bytes rd ++ received ticks.
Proof. reflexivity. Qed.

(** While the caller waits, the reply is an outcome of the command on the
    bytes read so far in the cycle, and it leaves the worker idle. *)
Lemma await_spec (ticks : list tick) :
  forall t t' r,
    tcp_state t = waitingOnReply ->
    await t ticks = (t', Some r) ->
    tcp_state t' = idle
    /\ tcp_alive t' = tcp_alive t
    /\ exists k, (1 <= k <= length ticks)%nat
                 /\ outcome_of (req_Command (tcp_request t))
                      (tcp_ibuf t ++ received (firstn k ticks)) r.
Proof.
  induction ticks as [|[rd [now now']] ticks IH]; intros t t' r Hs H.
  - discriminate.
  - cbn [await] in H.
    rewrite (@runner_step_waiting t rd now now' Hs) in H.
    destruct (classify _ _ _) as [[e by_]|] eqn:E.
    + cbn [responses] in H. inversion H; subst t' r; clear H.
      split; [reflexivity|]. split; [now rewrite sock2ibuf_eq|].
      exists 1%nat. split; [simpl; lia|].
      cbn [firstn]. rewrite received_cons. unfold received at 1.
      cbn [map concat]. rewrite app_nil_r.
      eapply classify_outcome; eauto.
    + cbn [responses] in H.
      apply IH in H; [|now rewrite sock2ibuf_eq].
      destruct H as (H1 & H2 & k & Hk & Ho).
      split; [exact H1|]. split; [now rewrite H2, sock2ibuf_eq|].
      exists (S k). split; [simpl; lia|].
      cbn [firstn]. rewrite received_cons.
      rewrite sock2ibuf_eq in Ho.
      cbn [set_response_Error set_response set_err set_ibuf tcp_request
           tcp_ibuf] in Ho.
      now rewrite <- app_assoc in Ho.
Qed.

(** A tick past the deadline ends the wait. *)
Lemma await_live (ticks : list tick) :
  forall t,
    tcp_state t = waitingOnReply ->
    Exists (fun k : tick =>
              Sub (fst (snd k)) (tcp_reqTime t)
              > cmd_Timeout (req_Command (tcp_request t))) ticks ->
    snd (await t ticks) <> None.
Proof.
  induction ticks as [|[rd [now now']] ticks IH]; intros t Hs H.
  - inversion H.
  - cbn [await].
    rewrite (@runner_step_waiting t rd now now' Hs).
    destruct (classify _ _ _) as [[e by_]|] eqn:E.
    + cbn. discriminate.
    + cbn [responses].
      apply IH.
      * now rewrite sock2ibuf_eq.
      * inversion H as [? ? Hd | ? ? Hd]; subst.
        -- exfalso. cbn [fst snd] in Hd.
           now apply (@classify_deadline _ (tcp_ibuf t ++ read_bytes rd)) in Hd.
        -- rewrite sock2ibuf_eq. exact Hd.
Qed.

Lemma runner_step_Tick_idle (t : tcp) (rd : readResult) (now now' : Time)
      (ready : bool) :
  tcp_state t = idle ->
  runner_step t (Tick rd) now now' ready = (sock2ibuf t rd, []).
Proof.
  intros H. unfold runner_step.
  rewrite checkState_other by (rewrite sock2ibuf_state, H; discriminate).
  cbn [fst]. rewrite sock2ibuf_state, H. reflexivity.
Qed.

Lemma polls_idle (ticks : list (readResult * (Time * Time) * bool)) :
  forall t, tcp_state t = idle ->
            tcp_state (polls t ticks) = idle
            /\ tcp_alive (polls t ticks) = tcp_alive t.
Proof.
  induction ticks as [|[[rd [now now']] ready] ticks IH]; intros t H.
  - now split.
  - cbn [polls]. rewrite runner_step_Tick_idle by exact H. cbn [fst].
    destruct (IH (sock2ibuf t rd)) as [H1 H2];
      [now rewrite sock2ibuf_state|].
    split; [exact H1|]. now rewrite H2, sock2ibuf_eq.
Qed.

Lemma idle_ticks_idle (t : tcp) (ticks : list tick) :
  tcp_state t = idle ->
  tcp_state (idle_ticks t ticks) = idle
  /\ tcp_alive (idle_ticks t ticks) = tcp_alive t.
Proof. intros H. now apply polls_idle. Qed.

(** The worker's turn for a request that finds it idle. *)
Lemma serve_idle (t : tcp) (r : request) (wr : option error) (now : Time)
      (chk : Time * Time) :
  tcp_state t = idle ->
  serve t r wr now chk
  = match wr with
    | Some e =>
        (set_err (Some e) (set_ibuf [] t),
         [ConnWrite (req_bytes r); SrespSend (mkResponse [] (Some e) 0)])
    | None =>
        let u := set_response_Error (Some errUnformedResponse)
                                    (accepted t r now) in
        match classify (req_Command r) [] (Sub (fst chk) now) with
        | Some (e, by_) =>
            (set_state idle (alterResp (snd chk) e by_ u),
             [ConnWrite (req_bytes r);
              SrespSend (mkResponse by_ e (Since (snd chk) now))])
        | None => (u, [ConnWrite (req_bytes r)])
        end
    end.
Proof.
  intros H. unfold serve, runner_step.
  rewrite handleIncoming_idle by exact H.
  destruct wr as [e|].
  - cbn [snd responses].
    rewrite checkState_other by (cbn; rewrite H; discriminate).
    cbn [fst set_err set_ibuf tcp_state]. rewrite H. reflexivity.
  - cbn [snd responses]. fold (accepted t r now).
    rewrite checkState_classify by reflexivity.
    cbn [accepted set_state set_reqTime set_request set_ibuf tcp_request
         tcp_ibuf tcp_reqTime].
    destruct (classify _ _ _) as [[e by_]|]; reflexivity.
Qed.

Section RoundTrip.
Variable Sprintf : string -> list value -> string.

(** The reply of the worker is the result of [Control] for that reply. *)
Lemma ControlWorker_Control (t : tcp) (cmd : Command) (args : list value)
      (x : exchange) (t' : tcp) (r : Response) (evs : list event) :
  ControlWorker Sprintf t cmd args x = (t', Some r, evs) ->
  fst (Control Sprintf t cmd args r) = r.
Proof.
  unfold ControlWorker, Control.
  destruct (negb (tcp_alive t)).
  - intros H; inversion H; reflexivity.
  - destruct (Bytes Sprintf cmd args) as [b [e|]].
    + intros H; inversion H; reflexivity.
    + reflexivity.
Qed.

Lemma ControlWorker_idle (t : tcp) (cmd : Command) (args : list value)
      (x : exchange) (t' : tcp) (r : Response) (evs : list event) :
  tcp_alive t = true ->
  tcp_state t = idle ->
  ControlWorker Sprintf t cmd args x = (t', Some r, evs) ->
  tcp_state t' = idle /\ tcp_alive t' = true
  /\ reply_of Sprintf cmd args x r.
Proof.
  intros Ha Hs. unfold ControlWorker, reply_of. rewrite Ha. cbn [negb].
  destruct (@idle_ticks_idle t (ex_before x) Hs) as [Hs1 Ha1].
  rewrite Ha in Ha1.
  destruct (Bytes Sprintf cmd args) as [b [e|]]; cbn [snd].
  - intros H; inversion H; subst. split; [exact Hs1|]. split; [exact Ha1|].
    left. now exists e.
  - rewrite (@serve_idle _ _ _ _ _ Hs1).
    destruct (ex_wr x) as [e|] eqn:Ew.
    + cbn [responses]. intros H; inversion H; subst.
      split; [exact Hs1|]. split; [exact Ha1|].
      right; left. split; [reflexivity|]. now exists e.
    + cbv zeta.
      destruct (classify _ _ _) as [[e by_]|] eqn:E.
      * cbn [responses]. intros H; inversion H; subst.
        split; [reflexivity|]. split; [exact Ha1|].
        right; right. split; [reflexivity|]. split; [reflexivity|].
        exists 0%nat. split; [lia|]. cbn [firstn].
        change (received []) with (@nil ascii).
        now apply (@classify_outcome _ _ _ _ _ _ E).
      * cbn [responses].
        destruct (await _ (ex_after x)) as [t2 [r2|]] eqn:Ew2;
          intros H; inversion H; subst.
        apply await_spec in Ew2; [|reflexivity].
        destruct Ew2 as (H1 & H2 & k & Hk & Ho).
        split; [exact H1|]. split; [now rewrite H2|].
        right; right. split; [reflexivity|]. split; [reflexivity|].
        exists k. split; [lia|]. exact Ho.
Qed.

(** X6: a call of [Control] that finds the worker alive and idle and gets a
    reply leaves the worker alive and idle, ready for the next call.  The
    reply is the error of [Bytes], or the error of the write with no bytes,
    or an outcome of the command on bytes read after the request and on
    nothing else: [ErrTimeout] or [ErrMatch] with all these bytes, or nil
    with the stretch of them that the success pattern matches. *)
Theorem ControlWorker_reply (t : tcp) (cmd : Command) (args : list value)
        (x : exchange) (t' : tcp) (r : Response) (evs : list event) :
  tcp_alive t = true ->
  tcp_state t = idle ->
  ControlWorker Sprintf t cmd args x = (t', Some r, evs) ->
  tcp_state t' = idle /\ tcp_alive t' = true
  /\ reply_of Sprintf cmd args x r.
Proof. exact (@ControlWorker_idle t cmd args x t' r evs). Qed.

Lemma ControlWorker_returns (t : tcp) (cmd : Command) (args : list value)
      (x : exchange) :
  Exists (fun k : tick =>
            Sub (fst (snd k)) (ex_now x) > cmd_Timeout cmd) (ex_after x) ->
  snd (fst (ControlWorker Sprintf t cmd args x)) <> None.
Proof.
  intros H. unfold ControlWorker.
  destruct (negb (tcp_alive t)); [discriminate|].
  destruct (Bytes Sprintf cmd args) as [b [e|]]; [discriminate|].
  set (t0 := idle_ticks t (ex_before x)).
  destruct (Z.eq_dec (tcp_state t0) idle) as [Hs|Hs].
  - rewrite (@serve_idle _ _ _ _ _ Hs).
    destruct (ex_wr x) as [e|]; [discriminate|].
    cbv zeta. destruct (classify _ _ _) as [[e by_]|]; [discriminate|].
    cbn [responses].
    pose proof (@await_live (ex_after x)
                  (set_response_Error (Some errUnformedResponse)
                     (accepted t0 (mkRequest cmd b) (ex_now x)))
                  eq_refl H) as Hl.
    destruct (await _ (ex_after x)) as [t2 r2]. exact Hl.
  - unfold serve, runner_step, handleIncoming.
    apply Z.eqb_neq in Hs. rewrite Hs. cbn [negb snd responses].
    match goal with
    | |- context [if ?c then _ else _] => destruct c
    end; cbn [responses]; discriminate.
Qed.

(** X7: [Control] does not wait for ever: whatever the state of the
    worker, the call has its reply at the latest at the first tick whose
    clock reading is past the deadline of the command, counted from the
    time the worker took the request. *)
Theorem ControlWorker_live (t : tcp) (cmd : Command) (args : list value)
        (x : exchange) :
  Exists (fun k : tick =>
            Sub (fst (snd k)) (ex_now x) > cmd_Timeout cmd) (ex_after x) ->
  snd (fst (ControlWorker Sprintf t cmd args x)) <> None.
Proof. exact (@ControlWorker_returns t cmd args x). Qed.


(** X8: [Bytes] returns the formatted text in every case.  Its error is
    [ErrBytesArgs] exactly when the text holds the marker [%!], also when
    the validation pattern matches the text; [ErrBytesFormat] exactly when
    the text holds no marker and the pattern matches nowhere in it; and nil
    exactly when the text holds no marker and the pattern matches
    somewhere in it. *)
Theorem Bytes_result (c : Command) (v : list value) :
  let str := Sprintf (cmd_Prototype c) v in
  let valid := matches_anywhere (cmd_CommandRegexp c) (bytes_of_string str) in
  fst (Bytes Sprintf c v) = bytes_of_string str
  /\ (snd (Bytes Sprintf c v) = Some ErrBytesArgs
      <-> Contains str "%!" = true)
  /\ (snd (Bytes Sprintf c v) = Some ErrBytesFormat
      <-> Contains str "%!" = false /\ ~ valid)
  /\ (snd (Bytes Sprintf c v) = None
      <-> Contains str "%!" = false /\ valid).
Proof.
  cbv zeta. unfold Bytes, Regexp.MatchString.
  destruct (Contains _ _).
  - cbn. repeat split; try discriminate; try reflexivity;
      intros [H _]; discriminate.
  - destruct (Regexp.Match _ _) eqn:E; cbn [negb fst snd].
    + pose proof E as E'. apply RegexpFacts.Match_true in E'.
      repeat split; try discriminate; try reflexivity; try exact E'.
      intros [_ H]. exfalso. now apply H.
    + pose proof E as E'. apply Match_false in E'.
      repeat split; try discriminate; try reflexivity; try exact E'.
      intros [_ H]. exfalso. now apply E'.
Qed.

Lemma serve_written (t : tcp) (r : request) (wr : option error) (now : Time)
      (chk : Time * Time) :
  written (snd (serve t r wr now chk)) = []
  \/ written (snd (serve t r wr now chk)) = [req_bytes r].
Proof.
  unfold serve, runner_step.
  assert (H : written (snd (handleIncoming t r wr now)) = []
              \/ written (snd (handleIncoming t r wr now)) = [req_bytes r]).
  { unfold handleIncoming. destruct (negb _); [now left|].
    destruct wr; now right. }
  destruct (handleIncoming t r wr now) as [t0 evs]. cbn [snd] in *.
  destruct (tcp_state _ =? responseFormed);
    [destruct (match responses evs with [] => true | _ => false end)|];
    cbn [snd]; try exact H.
  rewrite written_app. cbn [written]. now rewrite app_nil_r.
Qed.


(** ** Dial and Close *)

Lemma checkState_alive (t : tcp) (now now' : Time) :
  tcp_alive (fst (checkState t now now')) = tcp_alive t.
Proof.
  unfold checkState.
  repeat match goal with
         | |- context [if ?b then _ else _] => destruct b
         end; reflexivity.
Qed.

Lemma handleIncoming_alive (t : tcp) (r : request) (wr : option error)
      (now : Time) :
  tcp_alive (fst (handleIncoming t r wr now)) = tcp_alive t.
Proof.
  unfold handleIncoming. destruct (negb _); [reflexivity|].
  destruct wr; reflexivity.
Qed.

Lemma runner_step_alive (t : tcp) (w : wake) (now now' : Time)
      (ready : bool) :
  tcp_alive (fst (runner_step t w now now' ready)) = tcp_alive t.
Proof.
  unfold runner_step.
  assert (H : forall t0 evs,
             match w with
             | Tick rd => (sock2ibuf t rd, [])
             | Incoming r wr tn => handleIncoming t r wr tn
             end = (t0, evs) -> tcp_alive t0 = tcp_alive t).
  { intros t0 evs. destruct w as [rd | r wr tn].
    - intros H; inversion H. now rewrite sock2ibuf_eq.
    - intros H. rewrite <- (handleIncoming_alive t r wr tn). now rewrite H. }
  destruct (match w with Tick _ => _ | Incoming _ _ _ => _ end) as [t0 evs].
  specialize (H t0 evs eq_refl).
  pose proof (checkState_alive t0 now now') as Hc.
  destruct (tcp_state _ =? responseFormed); [destruct ready|];
    cbn [fst set_state tcp_alive]; congruence.
Qed.

Lemma polls_alive (ticks : list (readResult * (Time * Time) * bool)) :
  forall t, tcp_alive (polls t ticks) = tcp_alive t.
Proof.
  induction ticks as [|[[rd [now now']] ready] ticks IH]; intros t.
  - reflexivity.
  - cbn [polls]. rewrite IH. apply runner_step_alive.
Qed.

Lemma await_alive (ticks : list tick) :
  forall t, tcp_alive (fst (await t ticks)) = tcp_alive t.
Proof.
  induction ticks as [|[rd [now now']] ticks IH]; intros t.
  - reflexivity.
  - cbn [await].
    pose proof (runner_step_alive t (Tick rd) now now' true) as H.
    destruct (runner_step t (Tick rd) now now' true) as [t1 evs].
    cbn [fst] in H.
    destruct (responses evs); [rewrite IH|]; exact H.
Qed.

Lemma ControlWorker_alive (t : tcp) (cmd : Command) (args : list value)
      (x : exchange) :
  tcp_alive (fst (fst (ControlWorker Sprintf t cmd args x))) = tcp_alive t.
Proof.
  unfold ControlWorker.
  destruct (negb (tcp_alive t)); [reflexivity|].
  pose proof (polls_alive
                (map (fun k : tick => (fst k, snd k, false)) (ex_before x)) t)
    as H0. fold (idle_ticks t (ex_before x)) in H0.
  destruct (Bytes Sprintf cmd args) as [b [e|]]; [exact H0|].
  unfold serve.
  pose proof (runner_step_alive (idle_ticks t (ex_before x))
                (Incoming (mkRequest cmd b) (ex_wr x) (ex_now x))
                (fst (ex_chk x)) (snd (ex_chk x))) as H1.
  match goal with
  | |- context [runner_step _ _ _ _ ?rdy] => specialize (H1 rdy)
  end.
  destruct (runner_step _ _ _ _ _) as [t1 evs]. cbn [fst] in H1.
  destruct (responses evs).
  - pose proof (await_alive (ex_after x) t1) as H2.
    destruct (await t1 (ex_after x)) as [t2 r2]. cbn [fst] in *. congruence.
  - cbn [fst]. congruence.
Qed.

(** A reply with a nil error is the reply to a request that was written. *)
Lemma ControlWorker_nil (t : tcp) (cmd : Command) (args : list value)
      (x : exchange) (t' : tcp) (r : Response) (evs : list event) :
  ControlWorker Sprintf t cmd args x = (t', Some r, evs) ->
  resp_Error r = None ->
  tcp_state t' = idle
  /\ snd (Bytes Sprintf cmd args) = None
  /\ written evs = [fst (Bytes Sprintf cmd args)].
Proof.
  unfold ControlWorker.
  destruct (negb (tcp_alive t)).
  { intros H; inversion H; subst. discriminate. }
  destruct (Bytes Sprintf cmd args) as [b [e|]].
  { intros H; inversion H; subst. discriminate. }
  set (t0 := idle_ticks t (ex_before x)).
  destruct (Z.eq_dec (tcp_state t0) idle) as [Hs|Hs].
  - rewrite (@serve_idle _ _ _ _ _ Hs).
    destruct (ex_wr x) as [e|].
    { cbn [responses]. intros H; inversion H; subst. discriminate. }
    cbv zeta. destruct (classify _ _ _) as [[e by_]|].
    + cbn [responses]. intros H; inversion H; subst. intros _.
      repeat split.
    + cbn [responses].
      destruct (await _ (ex_after x)) as [t2 [r2|]] eqn:Ew;
        intros H; inversion H; subst. intros _.
      apply await_spec in Ew; [|reflexivity].
      destruct Ew as (H1 & _). repeat split. exact H1.
  - unfold serve, runner_step, handleIncoming.
    apply Z.eqb_neq in Hs. rewrite Hs. cbn [negb snd responses].
    match goal with
    | |- context [if ?c then _ else _] => destruct c
    end; cbn [responses]; intros H; inversion H; subst;
      destruct (tcp_err t0); discriminate.
Qed.

Lemma ControlWorker_written (t : tcp) (cmd : Command) (args : list value)
      (x : exchange) :
  (length (written (snd (ControlWorker Sprintf t cmd args x))) <= 1)%nat.
Proof.
  unfold ControlWorker.
  destruct (negb (tcp_alive t)); [simpl; lia|].
  destruct (Bytes Sprintf cmd args) as [b [e|]]; [simpl; lia|].
  pose proof (serve_written (idle_ticks t (ex_before x)) (mkRequest cmd b)
                (ex_wr x) (ex_now x) (ex_chk x)) as Hw.
  destruct (serve _ _ _ _ _) as [t1 evs]. cbn [snd] in Hw.
  destruct (responses evs);
    [destruct (await t1 (ex_after x)) as [t2 r2]|];
    cbn [snd]; destruct Hw as [-> | ->]; simpl; lia.
Qed.

Lemma ping_loop_error (n : nat) :
  forall t pingCmd xs final t' e evs,
    ping_loop Sprintf n t pingCmd xs final = (t', DialReturned (Some e), evs) ->
    tcp_alive t' = false.
Proof.
  induction n as [|n IH]; intros t pingCmd xs final t' e evs H.
  - discriminate.
  - cbn [ping_loop] in H. destruct xs as [|x xs]; [discriminate|].
    destruct (ControlWorker Sprintf t pingCmd [] x) as [[t1 [r|]] ev1];
      [|discriminate].
    destruct (resp_Error r) as [e1|].
    + inversion H; subst. reflexivity.
    + destruct (ping_loop Sprintf n t1 pingCmd xs final)
        as [[t2 res] ev2] eqn:E.
      inversion H; subst. eapply IH; eauto.
Qed.

Lemma ping_loop_nil (n : nat) :
  forall t pingCmd xs final t' evs,
    ping_loop Sprintf n t pingCmd xs final = (t', DialReturned None, evs) ->
    tcp_alive t' = tcp_alive t
    /\ written evs = repeat (fst (Bytes Sprintf pingCmd [])) n
    /\ ((0 < n)%nat ->
        tcp_state t' = idle /\ snd (Bytes Sprintf pingCmd []) = None).
Proof.
  induction n as [|n IH]; intros t pingCmd xs final t' evs H.
  - inversion H; subst. repeat split; intros; lia.
  - cbn [ping_loop] in H. destruct xs as [|x xs]; [discriminate|].
    pose proof (ControlWorker_alive t pingCmd [] x) as Ha.
    destruct (ControlWorker Sprintf t pingCmd [] x) as [[t1 [r|]] ev1] eqn:E1;
      [|discriminate].
    cbn [fst] in Ha.
    destruct (resp_Error r) as [e1|] eqn:Er; [discriminate|].
    destruct (@ControlWorker_nil _ _ _ _ _ _ _ E1 Er) as (Hs1 & Hb & Hw1).
    destruct (ping_loop Sprintf n t1 pingCmd xs final)
      as [[t2 res] ev2] eqn:E.
    inversion H; subst.
    destruct (IH _ _ _ _ _ _ E) as (Ha2 & Hw2 & Hs2).
    split; [congruence|]. split.
    + rewrite written_app, Hw1, Hw2. reflexivity.
    + intros _. split; [|exact Hb].
      destruct n as [|n].
      * cbn [ping_loop] in E. inversion E; subst. exact Hs1.
      * apply Hs2. lia.
Qed.

Lemma ping_loop_no_panic (n : nat) :
  forall t pingCmd xs final msg,
    snd (fst (ping_loop Sprintf n t pingCmd xs final)) <> DialPanicked msg.
Proof.
  induction n as [|n IH]; intros t pingCmd xs final msg.
  - discriminate.
  - cbn [ping_loop]. destruct xs as [|x xs]; [discriminate|].
    destruct (ControlWorker Sprintf t pingCmd [] x) as [[t1 [r|]] ev1];
      [|discriminate].
    destruct (resp_Error r); [discriminate|].
    specialize (IH t1 pingCmd xs final msg).
    destruct (ping_loop Sprintf n t1 pingCmd xs final) as [[t2 res] ev2].
    exact IH.
Qed.

Lemma ping_loop_written (n : nat) :
  forall t pingCmd xs final,
    (length (written (snd (ping_loop Sprintf n t pingCmd xs final))) <= n)%nat.
Proof.
  induction n as [|n IH]; intros t pingCmd xs final.
  - simpl. lia.
  - cbn [ping_loop]. destruct xs as [|x xs]; [simpl; lia|].
    pose proof (ControlWorker_written t pingCmd [] x) as Hw.
    destruct (ControlWorker Sprintf t pingCmd [] x) as [[t1 [r|]] ev1];
      cbn [snd] in *; [|lia].
    destruct (resp_Error r); [cbn [snd]; lia|].
    specialize (IH t1 pingCmd xs final).
    destruct (ping_loop Sprintf n t1 pingCmd xs final) as [[t2 res] ev2].
    cbn [snd] in *. rewrite written_app, length_app. lia.
Qed.

Lemma ping_loop_returns (n : nat) :
  forall t pingCmd xs final,
    (n <= length xs)%nat ->
    Forall (fun x => Exists (fun k : tick =>
                               Sub (fst (snd k)) (ex_now x)
                               > cmd_Timeout pingCmd) (ex_after x)) xs ->
    snd (fst (ping_loop Sprintf n t pingCmd xs final)) <> DialBlocked.
Proof.
  induction n as [|n IH]; intros t pingCmd xs final Hlen Hall.
  - discriminate.
  - cbn [ping_loop]. destruct xs as [|x xs]; [simpl in Hlen; lia|].
    inversion Hall as [|? ? Hx Hxs]; subst.
    pose proof (@ControlWorker_returns t pingCmd [] x Hx) as Hr.
    destruct (ControlWorker Sprintf t pingCmd [] x) as [[t1 [r|]] ev1];
      [|now cbn in Hr].
    destruct (resp_Error r); [discriminate|].
    assert (Hlen' : (n <= length xs)%nat) by (simpl in Hlen; lia).
    specialize (IH t1 pingCmd xs final Hlen' Hxs).
    destruct (ping_loop Sprintf n t1 pingCmd xs final) as [[t2 res] ev2].
    exact IH.
Qed.

(** X10: when [Dial] returns nil, the connection was opened, the ping
    formats without operands, the worker runs ([t.alive] is true) and is
    idle, and exactly three pings were written on the connection, each the
    formatted ping. *)
Theorem Dial_nil (t : tcp) (addr : string) (timeout : Duration)
        (pingCmd : Command) (dialErr : option error) (xs : list exchange)
        (final : list tick) (t' : tcp) (evs : list event) :
  Dial Sprintf t addr timeout pingCmd dialErr xs final
  = (t', DialReturned None, evs) ->
  dialErr = None
  /\ snd (Bytes Sprintf pingCmd []) = None
  /\ tcp_alive t' = true
  /\ tcp_state t' = idle
  /\ written evs = repeat (fst (Bytes Sprintf pingCmd [])) 3.
Proof.
  unfold Dial. destruct dialErr as [e|]; [discriminate|].
  destruct (snd (Bytes Sprintf pingCmd [])) eqn:Eb; [discriminate|].
  intros H. apply ping_loop_nil in H.
  destruct H as (Ha & Hw & Hs). destruct Hs as [Hs _]; [lia|].
  repeat split; assumption.
Qed.

(** X11: when [Dial] on an engine that is not alive returns an error, the
    engine is not alive afterwards: the connection could not be opened and
    no worker was started, or a ping failed and the worker was stopped.  So
    [Control] then answers [ErrNotConnected] without sending anything, and
    [Close] returns nil without sending anything. *)
Theorem Dial_error (t : tcp) (addr : string) (timeout : Duration)
        (pingCmd : Command) (dialErr : option error) (xs : list exchange)
        (final : list tick) (t' : tcp) (e : error) (evs : list event) :
  tcp_alive t = false ->
  Dial Sprintf t addr timeout pingCmd dialErr xs final
  = (t', DialReturned (Some e), evs) ->
  tcp_alive t' = false
  /\ (dialErr <> None -> dialErr = Some e /\ evs = [])
  /\ (forall cmd args reply,
         Control Sprintf t' cmd args reply
         = (Response_Error (Some ErrNotConnected), []))
  /\ (forall ack, Close t' ack = (None, [])).
Proof.
  intros Ha H.
  assert (Ha' : tcp_alive t' = false
                /\ (dialErr <> None -> dialErr = Some e /\ evs = [])).
  { unfold Dial in H. destruct dialErr as [e0|].
    - inversion H; subst. split; [exact Ha|]. now split.
    - destruct (snd (Bytes Sprintf pingCmd [])); [discriminate|].
      apply ping_loop_error in H. split; [exact H|]. congruence. }
  destruct Ha' as [Ha' Hd].
  split; [exact Ha'|]. split; [exact Hd|]. split.
  - intros cmd args reply. unfold Control. now rewrite Ha'.
  - intros ack. unfold Close. now rewrite Ha'.
Qed.

(** X12: [Dial] panics exactly when the connection was opened and the ping
    does not format without operands.  The worker was started before the
    check: it is alive when [Dial] panics, and no ping was sent. *)
Theorem Dial_panics (t : tcp) (addr : string) (timeout : Duration)
        (pingCmd : Command) (dialErr : option error) (xs : list exchange)
        (final : list tick) :
  let d := Dial Sprintf t addr timeout pingCmd dialErr xs final in
  ((exists msg, snd (fst d) = DialPanicked msg)
   <-> dialErr = None /\ snd (Bytes Sprintf pingCmd []) <> None)
  /\ ((exists msg, snd (fst d) = DialPanicked msg) ->
      tcp_alive (fst (fst d)) = true /\ snd d = []).
Proof.
  cbv zeta. unfold Dial. destruct dialErr as [e|].
  - cbn [fst snd]. split; [split|].
    + intros [msg H]. discriminate.
    + intros [H _]. discriminate.
    + intros [msg H]. discriminate.
  - destruct (snd (Bytes Sprintf pingCmd [])) eqn:Eb.
    + cbn [fst snd]. split; [split|].
      * intros _. split; [reflexivity | discriminate].
      * intros _. eexists. reflexivity.
      * intros _. split; reflexivity.
    + split; [split|].
      * intros [msg H]. exfalso. eapply ping_loop_no_panic; eauto.
      * intros [_ H]. congruence.
      * intros [msg H]. exfalso. eapply ping_loop_no_panic; eauto.
Qed.

(** X13: [Dial] sends at most three pings, and it does not wait for ever:
    when each of the three exchanges has a tick past the deadline of the
    ping, [Dial] returns or panics. *)
Theorem Dial_bounded (t : tcp) (addr : string) (timeout : Duration)
        (pingCmd : Command) (dialErr : option error) (xs : list exchange)
        (final : list tick) :
  let d := Dial Sprintf t addr timeout pingCmd dialErr xs final in
  (length (written (snd d)) <= 3)%nat
  /\ ((3 <= length xs)%nat ->
      Forall (fun x => Exists (fun k : tick =>
                                 Sub (fst (snd k)) (ex_now x)
                                 > cmd_Timeout pingCmd) (ex_after x)) xs ->
      snd (fst d) <> DialBlocked).
Proof.
  cbv zeta. unfold Dial. destruct dialErr as [e|].
  - cbn. split; [lia | discriminate].
  - destruct (snd (Bytes Sprintf pingCmd [])).
    + cbn. split; [lia | discriminate].
    + split; [apply ping_loop_written|].
      intros Hl Hall. now apply ping_loop_returns.
Qed.

(** X14: [Close] on an engine that is not alive returns nil and leaves the
    engine as it is.  On an alive engine whose worker is that of [runner],
    [Close] returns nil when the worker answers in time and [ErrTimeout]
    otherwise, never another error.  After a [Close] that returned nil the
    engine is not alive: a second [Close] returns nil and changes nothing,
    and [Control] answers [ErrNotConnected] without sending anything. *)
Theorem CloseWorker_closes (t : tcp) (before : list tick) (timely : bool) :
  (tcp_alive t = false -> CloseWorker t before timely = (t, None))
  /\ (tcp_alive t = true ->
      snd (CloseWorker t before timely)
      = if timely then None else Some ErrTimeout)
  /\ (snd (CloseWorker t before timely) = None ->
      let t' := fst (CloseWorker t before timely) in
      tcp_alive t' = false
      /\ (forall before' timely', CloseWorker t' before' timely' = (t', None))
      /\ (forall cmd args reply,
             Control Sprintf t' cmd args reply
             = (Response_Error (Some ErrNotConnected), []))).
Proof.
  assert (Ha : tcp_alive (fst (CloseWorker t before timely)) = false).
  { unfold CloseWorker. destruct (tcp_alive t) eqn:E; [reflexivity|exact E]. }
  split; [|split].
  - intros H. unfold CloseWorker, Close. now rewrite H.
  - intros H. unfold CloseWorker, Close, runner_stop. rewrite H.
    cbn [fst snd]. now destruct timely.
  - intros _. cbv zeta. split; [exact Ha|]. split.
    + intros before' timely'. unfold CloseWorker at 1. unfold Close.
      now rewrite Ha.
    + intros cmd args reply. unfold Control. now rewrite Ha.
Qed.

End RoundTrip.

(** ** Runs of the engine with the worker *)

Local Open Scope string_scope.

(** An alive, idle engine sends [testCommand]; a stale failure reply read
    before the request is dropped, and the reply arrives in two reads. *)
Lemma ControlWorker_reply_witness :
  let nl := String "010" "" in
  let t := set_alive true new_tcp in
  let x := mkExchange [(mkRead (bytes_of_string ("999" ++ nl)) None, (5, 5))]
                      None 10 (10, 10)
                      [(mkRead (bytes_of_string "abc") None, (11, 11));
                       (mkRead (bytes_of_string ("def" ++ nl)) None,
                        (12, 12))] in
  let r := mkResponse (bytes_of_string ("abcdef" ++ nl)) None 2 in
  snd (fst (ControlWorker Fmt.Sprintf t testCommand [] x)) = Some r
  /\ tcp_state (fst (fst (ControlWorker Fmt.Sprintf t testCommand [] x)))
     = idle
  /\ reply_of Fmt.Sprintf testCommand [] x r.
Proof.
  cbv zeta.
  set (t := set_alive true new_tcp).
  set (x := mkExchange _ _ _ _ _).
  set (r := mkResponse _ _ _).
  assert (E : ControlWorker Fmt.Sprintf t testCommand [] x
              = (fst (fst (ControlWorker Fmt.Sprintf t testCommand [] x)),
                 Some r,
                 snd (ControlWorker Fmt.Sprintf t testCommand [] x)))
    by (vm_compute; reflexivity).
  split; [now rewrite E|].
  assert (Ha : tcp_alive t = true) by reflexivity.
  assert (Hs : tcp_state t = idle) by reflexivity.
  destruct (@ControlWorker_reply Fmt.Sprintf t testCommand [] x _ _ _
              Ha Hs E) as (H1 & _ & H3).
  split; [exact H1 | exact H3].
Defined.

(** [pingOk] gets no answer: the tick 301 ms after the request ends the
    call, with [ErrTimeout]. *)
Lemma ControlWorker_live_witness :
  let t := set_alive true new_tcp in
  let x := mkExchange [] None 0 (0, 0)
                      [(mkRead [] (Some (NetError true "i/o timeout")),
                        (millisecond, millisecond));
                       (mkRead [] (Some (NetError true "i/o timeout")),
                        (301 * millisecond, 301 * millisecond))] in
  snd (fst (ControlWorker Fmt.Sprintf t pingOk [] x)) <> None
  /\ snd (fst (ControlWorker Fmt.Sprintf t pingOk [] x))
     = Some (mkResponse [] (Some ErrTimeout) (301 * millisecond)).
Proof.
  cbv zeta. split; [|vm_compute; reflexivity].
  apply (@ControlWorker_live Fmt.Sprintf (set_alive true new_tcp) pingOk []
           (mkExchange [] None 0 (0, 0)
              [(mkRead [] (Some (NetError true "i/o timeout")),
                (millisecond, millisecond));
               (mkRead [] (Some (NetError true "i/o timeout")),
                (301 * millisecond, 301 * millisecond))])).
  apply Exists_cons_tl. apply Exists_cons_hd. vm_compute. reflexivity.
Defined.

(** [Dial] on a fresh engine with [pingOk] and a device that echoes it:
    three pings, each answered at the next tick. *)
Lemma Dial_nil_witness :
  let cr := bytes_of_string (String "013" "") in
  let x (n : Z) := mkExchange [] None n (n, n) [(mkRead cr None, (n + 1, n + 1))] in
  let d := Dial Fmt.Sprintf new_tcp "localhost:2001" (100 * millisecond)
                pingOk None [x 0; x 10; x 20] [] in
  snd (fst d) = DialReturned None
  /\ tcp_alive (fst (fst d)) = true
  /\ tcp_state (fst (fst d)) = idle
  /\ written (snd d) = [cr; cr; cr].
Proof.
  cbv zeta.
  set (d := Dial _ _ _ _ _ _ _ _).
  assert (E : d = (fst (fst d), DialReturned None, snd d))
    by (vm_compute; reflexivity).
  split; [now rewrite E|].
  destruct (@Dial_nil Fmt.Sprintf _ _ _ _ _ _ _ _ _ E)
    as (_ & _ & H1 & H2 & H3).
  split; [exact H1|]. split; [exact H2 | exact H3].
Defined.

(** [Dial] to a host that does not exist, and [Dial] with [pingBad] to a
    device that does not echo it: the first ping times out at the tick
    151 ms after it was sent. *)
Lemma Dial_error_witness :
  let quiet (n : Z) := (mkRead [] (Some (NetError true "i/o timeout")),
                        (n, n)) : tick in
  let d1 := Dial Fmt.Sprintf new_tcp "host-does-not-exist:65537"
                 (100 * millisecond) pingOk
                 (Some (OtherError "no such host")) [] [] in
  let d2 := Dial Fmt.Sprintf new_tcp "localhost:2001" (100 * millisecond)
                 pingBad None
                 [mkExchange [] None 0 (0, 0)
                             [quiet millisecond; quiet (151 * millisecond)]]
                 [quiet (152 * millisecond)] in
  (snd (fst d1) = DialReturned (Some (OtherError "no such host"))
   /\ tcp_alive (fst (fst d1)) = false)
  /\ (snd (fst d2) = DialReturned (Some ErrTimeout)
      /\ tcp_alive (fst (fst d2)) = false
      /\ written (snd d2) = [bytes_of_string "DONT-ECHO"]).
Proof.
  cbv zeta. split.
  - set (d := Dial _ _ _ _ _ _ _ _).
    assert (E : d = (fst (fst d), DialReturned (Some (OtherError "no such host")),
                     snd d))
      by (vm_compute; reflexivity).
    split; [now rewrite E|].
    apply (@Dial_error Fmt.Sprintf new_tcp _ _ _ _ _ _ _ _ _ eq_refl E).
  - set (d := Dial _ _ _ _ _ _ _ _).
    assert (E : d = (fst (fst d), DialReturned (Some ErrTimeout), snd d))
      by (vm_compute; reflexivity).
    split; [now rewrite E|]. split; [|vm_compute; reflexivity].
    apply (@Dial_error Fmt.Sprintf new_tcp _ _ _ _ _ _ _ _ _ eq_refl E).
Defined.

(** [Dial] with [pingWrong], as in [TestTcp_Dial]: the panic, with the
    worker already started. *)
Example Dial_pingWrong :
  Dial Fmt.Sprintf new_tcp "localhost:2001" (100 * millisecond) pingWrong
       None [] []
  = (set_alive true (set_addr "localhost:2001" new_tcp),
     DialPanicked "tcp Ping command cannot require args", []).
Proof. vm_compute. reflexivity. Qed.

(** ** The rest of the command model *)

Lemma chars_app (a b : string) :
  list_ascii_of_string (a ++ b)
  = (list_ascii_of_string a ++ list_ascii_of_string b)%list.
Proof. induction a as [|c a IH]; simpl; [reflexivity | now rewrite IH]. Qed.

Lemma Replace1_out (s : string) (old : ascii) (new : string) (c : ascii) :
  ~ In c (list_ascii_of_string new) ->
  (c = old \/ ~ In c (list_ascii_of_string s)) ->
  ~ In c (list_ascii_of_string (Replace1 s old new)).
Proof.
  intros Hn. induction s as [|a s IH]; intros Hs; simpl.
  - intros [].
  - assert (Hs' : c = old \/ ~ In c (list_ascii_of_string s)).
    { destruct Hs as [Hs | Hs]; [now left|]. right. intros H. apply Hs.
      now right. }
    destruct (Ascii.eqb a old) eqn:E.
    + rewrite chars_app. intros H. apply in_app_or in H.
      destruct H as [H | H]; [now apply Hn | now apply IH].
    + simpl. intros [H | H]; [|now apply IH].
      apply Ascii.eqb_neq in E. subst a.
      destruct Hs as [Hs | Hs]; [congruence|]. apply Hs. now left.
Qed.

Lemma Replace1_id (s : string) (old : ascii) (new : string) :
  ~ In old (list_ascii_of_string s) -> Replace1 s old new = s.
Proof.
  induction s as [|a s IH]; intros H; simpl; [reflexivity|].
  destruct (Ascii.eqb a old) eqn:E.
  - apply Ascii.eqb_eq in E. subst a. exfalso. apply H. now left.
  - rewrite IH; [reflexivity|]. intros H'. apply H. now right.
Qed.

(** X15: what [sanitize] returns holds no carriage return and no line
    feed, whatever it is given (a pattern, nil, a string or anything
    else); and a text that holds neither comes back as it is. *)
Theorem sanitize_one_line (i : sanitizeArg) :
  ~ In "013"%char (list_ascii_of_string (sanitize i))
  /\ ~ In "010"%char (list_ascii_of_string (sanitize i))
  /\ forall s,
      ~ In "013"%char (list_ascii_of_string s) ->
      ~ In "010"%char (list_ascii_of_string s) ->
      sanitize (SString s) = s /\ sanitize (SRegexp (Some s)) = s.
Proof.
  assert (H : forall str,
             ~ In "013"%char
               (list_ascii_of_string
                  (Replace1 (Replace1 str "013" (String "\" "r")) "010"
                            (String "\" "n")))
             /\ ~ In "010"%char
                  (list_ascii_of_string
                     (Replace1 (Replace1 str "013" (String "\" "r")) "010"
                               (String "\" "n")))).
  { intros str. split.
    - apply Replace1_out.
      + simpl. intros [H | [H | []]]; discriminate.
      + right. apply Replace1_out.
        * simpl. intros [H | [H | []]]; discriminate.
        * now left.
    - apply Replace1_out.
      + simpl. intros [H | [H | []]]; discriminate.
      + now left. }
  split; [|split].
  - destruct i as [[src|] | s |]; try apply H.
    simpl. intros [H0 | [H0 | [H0 | []]]]; discriminate.
  - destruct i as [[src|] | s |]; try apply H.
    simpl. intros [H0 | [H0 | [H0 | []]]]; discriminate.
  - intros s Hr Hn. unfold sanitize.
    rewrite (@Replace1_id s "013"%char _ Hr).
    rewrite (@Replace1_id s "010"%char _ Hn). now split.
Qed.

Lemma append_assoc (a b c : string) : (a ++ b) ++ c = a ++ (b ++ c).
Proof. induction a as [|x a IH]; simpl; [reflexivity | now rewrite IH]. Qed.

Lemma append_nil_r (a : string) : a ++ "" = a.
Proof. induction a as [|x a IH]; simpl; [reflexivity | now rewrite IH]. Qed.

(** the labels after the first: each with its comma in front *)
Lemma concat_commas (q : string -> string) (labels : list string) :
  forall lab,
    q lab ++ String.concat "" (map (fun l => "," ++ q l) labels)
    = String.concat "," (map q (lab :: labels)).
Proof.
  induction labels as [|l2 labels IH]; intros lab.
  - simpl. apply append_nil_r.
  - cbn [map]. cbn [map] in IH.
    change (String.concat "," (q lab :: q l2 :: map q labels))
      with (q lab ++ "," ++ String.concat "," (q l2 :: map q labels)).
    rewrite <- IH. f_equal.
    destruct labels as [|l3 labels].
    + simpl. rewrite !append_nil_r. reflexivity.
    + cbn [map String.concat]. simpl. reflexivity.
Qed.

Lemma JSONLabels_loop (Sprintf : string -> list value -> string)
      (labels : list string) :
  forall (acc : string) (i : Z),
    (0 < i)%Z ->
    fst (fold_left
           (fun (st : string * Z) (lab : string) =>
              let '(r, i) := st in
              let r := if (i =? 0)%Z then r else r ++ "," in
              (r ++ Sprintf "%q" [VString lab], (i + 1)%Z))
           labels (acc, i))
    = acc ++ String.concat ""
               (map (fun lab => "," ++ Sprintf "%q" [VString lab]) labels).
Proof.
  induction labels as [|lab labels IH]; intros acc i Hi.
  - simpl. now rewrite append_nil_r.
  - cbn [fold_left map].
    assert (E : (i =? 0)%Z = false) by (apply Z.eqb_neq; lia). rewrite E.
    rewrite IH by lia.
    rewrite !append_assoc. f_equal. f_equal.
    destruct labels as [|l2 labels]; cbn [map String.concat].
    + now rewrite !append_nil_r.
    + simpl. reflexivity.
Qed.

(** X16: [JSONLabels] returns the labels, each as [%q] prints it, in the
    order the map yields them, with one comma between two labels and none
    before the first or after the last, between [[] and []]; for the empty
    map it returns [[]]. *)
Theorem JSONLabels_joined (Sprintf : string -> list value -> string)
        (labels : list string) :
  JSONLabels Sprintf labels
  = "[" ++ String.concat ","
             (map (fun lab => Sprintf "%q" [VString lab]) labels) ++ "]".
Proof.
  unfold JSONLabels. destruct labels as [|lab labels]; [reflexivity|].
  cbn [fold_left]. change (0 =? 0)%Z with true. cbv iota.
  rewrite JSONLabels_loop by reflexivity.
  rewrite !append_assoc. f_equal. rewrite <- append_assoc. f_equal.
  apply (concat_commas (fun l => Sprintf "%q" [VString l])).
Qed.

(** ** Prototypes without verbs *)

Lemma Sprintf_plain (format : string) (a : list value) :
  ~ In "%"%char (list_ascii_of_string format) ->
  Fmt.Sprintf format a = format ++ Fmt.extra a.
Proof.
  induction format as [|c rest IH]; intros H; [reflexivity|].
  cbn [Fmt.Sprintf].
  destruct (Ascii.eqb c "%") eqn:E.
  - apply Ascii.eqb_eq in E. subst c. exfalso. apply H. now left.
  - simpl. rewrite IH; [reflexivity|]. intros H'. apply H. now right.
Qed.

Lemma Contains_plain (format : string) :
  ~ In "%"%char (list_ascii_of_string format) ->
  Contains format "%!" = false.
Proof.
  induction format as [|c rest IH]; intros H; [reflexivity|].
  cbn [Contains HasPrefix].
  destruct (Ascii.eqb "%" c) eqn:E.
  - apply Ascii.eqb_eq in E. subst c. exfalso. apply H. now left.
  - cbn [andb]. apply IH. intros H'. apply H. now right.
Qed.

(** X17: with the formatting of [fmt], a command whose prototype holds no
    [%] is sent as it stands: [Bytes] without operands returns the
    prototype itself, with a nil error when the validation pattern matches
    somewhere in it and with [ErrBytesFormat] otherwise; with any operand
    at all it returns [ErrBytesArgs].  With such a ping that validates,
    [Dial] does not panic. *)
Theorem Bytes_plain (c : Command) :
  ~ In "%"%char (list_ascii_of_string (cmd_Prototype c)) ->
  let proto := bytes_of_string (cmd_Prototype c) in
  (matches_anywhere (cmd_CommandRegexp c) proto ->
   Bytes Fmt.Sprintf c [] = (proto, None)
   /\ forall t addr timeout dialErr xs final msg,
       snd (fst (Dial Fmt.Sprintf t addr timeout c dialErr xs final))
       <> DialPanicked msg)
  /\ (~ matches_anywhere (cmd_CommandRegexp c) proto ->
      Bytes Fmt.Sprintf c [] = (proto, Some ErrBytesFormat))
  /\ (forall v, v <> [] -> snd (Bytes Fmt.Sprintf c v) = Some ErrBytesArgs).
Proof.
  intros H. cbv zeta.
  assert (E : Fmt.Sprintf (cmd_Prototype c) [] = cmd_Prototype c).
  { rewrite Sprintf_plain by exact H. apply append_nil_r. }
  pose proof (Contains_plain _ H) as Hc.
  split; [|split].
  - intros Hm.
    assert (Hb : Bytes Fmt.Sprintf c []
                 = (bytes_of_string (cmd_Prototype c), None)).
    { apply RegexpFacts.Match_true in Hm.
      unfold Bytes, Regexp.MatchString. rewrite E, Hc, Hm. reflexivity. }
    split; [exact Hb|].
    intros t addr timeout dialErr xs final msg. unfold Dial.
    destruct dialErr; [discriminate|]. rewrite Hb. cbn [snd].
    apply ping_loop_no_panic.
  - intros Hm. apply Match_false in Hm.
    unfold Bytes, Regexp.MatchString. rewrite E, Hc, Hm. reflexivity.
  - intros v Hv. rewrite FmtFacts.Bytes_mismatch; [reflexivity|].
    clear E Hc. induction (cmd_Prototype c) as [|a rest IH].
    + destruct v; [congruence | reflexivity].
    + cbn [Fmt.mismatch].
      destruct (Ascii.eqb a "%") eqn:Ea.
      * apply Ascii.eqb_eq in Ea. subst a. exfalso. apply H. now left.
      * apply IH. intros H'. apply H. now right.
Qed.

(** [pingOk], [pingBad] and [testCommand] hold no verb and validate. *)
Lemma Bytes_plain_witness :
  Bytes Fmt.Sprintf pingOk []
  = (bytes_of_string (String "013" ""), None)
  /\ snd (Bytes Fmt.Sprintf pingOk [VInt 1]) = Some ErrBytesArgs
  /\ Bytes Fmt.Sprintf
       (mkCommand "" 0 "abc" (Regexp.text "x") Regexp.Eps Regexp.never "") []
     = (bytes_of_string "abc", Some ErrBytesFormat).
Proof.
  split; [|split].
  - destruct (@Bytes_plain pingOk) as (H & _ & _).
    + simpl. intros [H | []]. discriminate.
    + apply H. apply RegexpFacts.Match_true. reflexivity.
  - destruct (@Bytes_plain pingOk) as (_ & _ & H).
    + simpl. intros [H | []]. discriminate.
    + apply H. discriminate.
  - destruct (@Bytes_plain
                (mkCommand "" 0 "abc" (Regexp.text "x") Regexp.Eps
                           Regexp.never "")) as (_ & H & _).
    + simpl. intros [H | [H | [H | []]]]; discriminate.
    + apply H. apply Match_false. reflexivity.
Defined.
